(** * go-cfr2: a command-line client for Cloudflare R2

    A shallow embedding of the parts of go-cfr2 that its specification
    talks about, followed by the properties of the specification, proved
    or refuted on it.

    - [Go], [Float64], [Fmt] : the Go values the program uses: errors,
      int64, the float64 of the percentages (binary64, with its
      rounding), the verbs of the progress line;
    - [Rounding]  : the invariant of the rounding of a mantissa, for the
      proofs about float64;
    - [Strings], [Filepath] : the functions of Go's [strings] and
      [path/filepath] packages the program calls (Unix);
    - [Config]    : config/config.go, [LoadConfig] and [expandPath];
    - [S3]        : the requests the program sends to the object store,
      as an interface, and the paginator of the SDK;
    - [StoreLaws], [Listing] : what the properties assume of a store;
    - [MemStore]  : a store in memory, an instance of the interface;
    - [R2]        : r2/operations.go;
    - [Main]      : the parts of main.go the specification describes.

    Conventions.  A Go [error] is its message ([string]); a function
    returning [(T, error)] returns a [result T]; a function returning only
    [error] returns an [option string] ([None] is [nil]).  The object store
    and the local file system are outside the program: their answers are
    arguments of the embedded functions, or operations of an interface. *)

From Stdlib Require Import ZArith QArith Qabs Qpower Lia Ascii String DecimalString.
From Stdlib Require Import SpecFloat.
From stdpp Require Import base option list strings gmap sorting.

Local Open Scope string_scope.

(* ===================================================================== *)
(** * Go values *)
(* ===================================================================== *)

Module Go.

(** [(T, error)]: either the value and a nil error, or an error. *)
Inductive result (A : Type) : Type :=
| Ok (a : A)
| Err (msg : string).
Arguments Ok {A} a.
Arguments Err {A} msg.

Definition is_Ok {A} (r : result A) : bool :=
  match r with Ok _ => true | Err _ => false end.

(** [int64]: a [Z] kept in [-2^63, 2^63) by wrapping around. *)
Definition wrap64 (z : Z) : Z :=
  ((z + 2 ^ 63) mod 2 ^ 64 - 2 ^ 63)%Z.

Definition add64 (a b : Z) : Z := wrap64 (a + b).
Definition mul64 (a b : Z) : Z := wrap64 (a * b).

Definition in_int64 (z : Z) : Prop := (- 2 ^ 63 <= z < 2 ^ 63)%Z.

End Go.
Export Go.

(* ===================================================================== *)
(** * float64 values and the [fmt] verbs of the progress line *)
(* ===================================================================== *)

Module Float64.

(** A float64 is a binary64 value of IEEE 754: [spec_float] of the
    standard library, at precision 53 and exponent bound 1024.  A finite
    value [S754_finite s m e] is plus or minus [m * 2^e]; the zeros and
    the infinities have a sign; NaN has no payload.  The operations round
    to nearest, ties to even, as Go's do. *)
Definition float64 : Type := spec_float.

Definition PosInf : float64 := S754_infinity false.
Definition NegInf : float64 := S754_infinity true.
Definition NaN : float64 := S754_nan.

(** [float64(z)] for an integer [z]: the nearest float64. *)
Definition ofInt64 (z : Z) : float64 := binary_normalize 53 1024 z 0 false.

(** [x / y] and [x * y]. *)
Definition fdiv (x y : float64) : float64 := SFdiv 53 1024 x y.
Definition fmul (x y : float64) : float64 := SFmul 53 1024 x y.

Definition isFinite (x : float64) : bool :=
  match x with
  | S754_zero _ | S754_finite _ _ _ => true
  | _ => false
  end.

(** The number a finite float64 stands for (0 for the others). *)
Definition toQ (x : float64) : Q :=
  match x with
  | S754_finite s m e =>
      (if s then - inject_Z (Z.pos m) else inject_Z (Z.pos m)) * 2 ^ e
  | _ => 0
  end.

(** The float64 1. *)
Definition one : float64 := S754_finite false 4503599627370496 (-52).

End Float64.
Export Float64.

Module Fmt.

(** [%d] of an integer. *)
Definition formatInt (z : Z) : string := NilZero.string_of_int (Z.to_int z).

(** The nearest integer of a non-negative rational, a tie going to the
    even neighbour (the rounding of [strconv.FormatFloat]). *)
Definition roundHalfEven (q : Q) : Z :=
  let n := Qnum q in
  let d := Z.pos (Qden q) in
  let fl := (n / d)%Z in
  let twice := (2 * (n mod d))%Z in
  if (twice <? d)%Z then fl
  else if (d <? twice)%Z then (fl + 1)%Z
  else if Z.even fl then fl else (fl + 1)%Z.

Definition twoDigits (z : Z) : string :=
  if (z <? 10)%Z then "0" +:+ formatInt z else formatInt z.

(** [%.2f] of a float64: the exact decimal expansion of the value,
    rounded to two digits after the point. *)
Definition formatFixed2 (x : float64) : string :=
  match x with
  | S754_nan => "NaN"
  | S754_infinity s => if s then "-Inf" else "+Inf"
  | S754_zero s => (if s then "-" else "") +:+ "0.00"
  | S754_finite s m e =>
      let hundredths := roundHalfEven (inject_Z (Z.pos m) * 2 ^ e * 100) in
      (if s then "-" else "")
      +:+ formatInt (hundredths / 100) +:+ "." +:+ twoDigits (hundredths mod 100)
  end.

(** The line feed and the carriage return. *)
Definition LF : string := String "010"%char EmptyString.
Definition CR : string := String "013"%char EmptyString.

(** [fmt.Println()] and [fmt.Println(s)]. *)
Definition Println (s : string) : string := s +:+ LF.

End Fmt.

(** What the proofs say of the rounding of [SpecFloat]. *)
Module Rounding.

(** The record [r] of the rounding holds the mantissa [M] cut by [n]
    digits: the digits kept, the round bit (the first digit dropped) and
    the sticky bit (whether a later digit dropped is set). *)
Definition cut (r : shr_record) (M n : Z) : Prop :=
  let rem := (M - shr_m r * 2 ^ n)%Z in
  (0 <= shr_m r)%Z /\ (0 <= rem < 2 ^ n)%Z
  /\ (shr_r r = true -> 2 ^ n <= 2 * rem)%Z
  /\ (shr_r r = false -> 2 * rem < 2 ^ n)%Z
  /\ (shr_s r = false -> 2 * rem = if shr_r r then 2 ^ n else 0)%Z.

(** The number of digits the rounding to 53 digits drops from a
    mantissa. *)
Definition dropped (m : positive) : Z := Z.max 0 (Z.pos (digits2_pos m) - 53).

End Rounding.

(* ===================================================================== *)
(** * The [strings] package *)
(* ===================================================================== *)

Module Strings.

(** [strings.ReplaceAll s old new] for a non-empty [old]: the leftmost
    non-overlapping occurrences of [old] are replaced.  [skip] counts the
    bytes of a matched occurrence that are still to be dropped. *)
Fixpoint replaceFrom (old new s : string) (skip : nat) : string :=
  match s with
  | EmptyString => EmptyString
  | String c s' =>
      match skip with
      | S k => replaceFrom old new s' k
      | O =>
          if String.prefix old s
          then new +:+ replaceFrom old new s' (String.length old - 1)
          else String c (replaceFrom old new s' 0)
      end
  end.

(** With an empty [old], Go inserts [new] before every character and at
    the end. *)
Fixpoint intersperse (new s : string) : string :=
  match s with
  | EmptyString => new
  | String c s' => new +:+ String c (intersperse new s')
  end.

Definition ReplaceAll (s old new : string) : string :=
  match old with
  | EmptyString => intersperse new s
  | _ => replaceFrom old new s 0
  end.



Fixpoint contains (c : ascii) (s : string) : bool :=
  match s with
  | EmptyString => false
  | String d s' => Ascii.eqb d c || contains c s'
  end.

(** [strings.Join elems sep]. *)
Fixpoint Join (elems : list string) (sep : string) : string :=
  match elems with
  | [] => ""
  | [e] => e
  | e :: rest => e +:+ sep +:+ Join rest sep
  end.

End Strings.

(* ===================================================================== *)
(** * The [path/filepath] package (Unix: the separator is ['/']) *)
(* ===================================================================== *)

Module Filepath.

(** The elements of a path: the pieces between separators.  [cur] holds
    the characters of the current element, last first. *)
Fixpoint splitFrom (s : string) (cur : string) : list string :=
  match s with
  | EmptyString => [String.rev cur]
  | String c s' =>
      if Ascii.eqb c "/"%char
      then String.rev cur :: splitFrom s' ""
      else splitFrom s' (String c cur)
  end.

Definition elements (path : string) : list string := splitFrom path "".

(** The loop of [filepath.Clean], element by element.  [dots] counts the
    leading [..] elements kept in the output (all of them lie below the
    source's [dotdot] index); [stack] holds the real elements written
    after them, last first. *)
Fixpoint cleanElems (rooted : bool) (elems : list string)
    (dots : nat) (stack : list string) : list string :=
  match elems with
  | [] => List.repeat ".." dots ++ List.rev stack
  | e :: rest =>
      if String.eqb e "" || String.eqb e "." then
        cleanElems rooted rest dots stack
      else if String.eqb e ".." then
        match stack with
        | _ :: stack' => cleanElems rooted rest dots stack'
        | [] =>
            if rooted then cleanElems rooted rest dots stack
            else cleanElems rooted rest (S dots) stack
        end
      else cleanElems rooted rest dots (e :: stack)
  end.

Definition isRooted (path : string) : bool :=
  match path with
  | String c _ => Ascii.eqb c "/"%char
  | EmptyString => false
  end.

Definition Clean (path : string) : string :=
  match path with
  | EmptyString => "."
  | _ =>
      let rooted := isRooted path in
      let out := Strings.Join (cleanElems rooted (elements path) 0 []) "/" in
      if rooted then "/" +:+ out
      else if String.eqb out "" then "." else out
  end.

(** [filepath.Join]: the elements from the first non-empty one on are
    joined with the separator and cleaned. *)
Fixpoint Join (elem : list string) : string :=
  match elem with
  | [] => ""
  | e :: rest =>
      if String.eqb e "" then Join rest
      else Clean (Strings.Join elem "/")
  end.

(** Trailing separators are dropped ([s] is read last character first). *)
Fixpoint dropSlashes (s : string) : string :=
  match s with
  | String c s' => if Ascii.eqb c "/"%char then dropSlashes s' else s
  | EmptyString => EmptyString
  end.

(** The characters up to the first separator. *)
Fixpoint upToSlash (s : string) : string :=
  match s with
  | String c s' =>
      if Ascii.eqb c "/"%char then EmptyString else String c (upToSlash s')
  | EmptyString => EmptyString
  end.

(** [filepath.Base]: the last element of the path. *)
Definition Base (path : string) : string :=
  match path with
  | EmptyString => "."
  | _ =>
      let last := String.rev (upToSlash (dropSlashes (String.rev path))) in
      if String.eqb last "" then "/" else last
  end.

End Filepath.

(* ===================================================================== *)
(** * config/config.go *)
(* ===================================================================== *)

Module Config.

(** R2Config holds the configuration for Cloudflare R2 access. *)
Record R2Config : Type := mkR2Config {
  AccountID : string;
  AccessKeyID : string;
  SecretAccessKey : string;
  DefaultBucket : string
}.

(** [&R2Config{}]: every field is the empty string. *)
Definition emptyConfig : R2Config := mkR2Config "" "" "" "".

Definition configFilePath : string := "~/.local/cfg/cfr2.toml".

(** The process environment.  [os.Getenv] returns the empty string for a
    variable that is not set. *)
Definition Getenv (env : gmap string string) (key : string) : string :=
  default "" (env !! key).

(** [os.UserHomeDir] on Unix: the value of [$HOME], an error if empty. *)
Definition UserHomeDir (env : gmap string string) : result string :=
  let v := Getenv env "HOME" in
  if String.eqb v "" then Err "$HOME is not defined" else Ok v.

(** expandPath expands a path that might contain a leading tilde. *)
Definition expandPath (env : gmap string string) (path : string) : string :=
  match path with
  | String c rest =>
      if Ascii.eqb c "~"%char then
        match UserHomeDir env with
        | Err _ => path
        | Ok homeDir => Filepath.Join [homeDir; rest]
        end
      else path
  | EmptyString => path
  end.

(** What the file system answers for a path: [os.Stat] fails (the file is
    missing, or cannot be examined); [os.Stat] succeeds and [os.ReadFile]
    fails; or [os.ReadFile] returns the contents. *)
Inductive FileState : Type :=
| NoFile
| Unreadable (err : string)
| Contents (data : string).

(** The four fields with their environment variables, in the order in
    which [LoadConfig] treats them. *)
Inductive Field : Type := FAccountID | FAccessKeyID | FSecretAccessKey | FDefaultBucket.

Definition fieldName (f : Field) : string :=
  match f with
  | FAccountID => "AccountID"
  | FAccessKeyID => "AccessKeyID"
  | FSecretAccessKey => "SecretAccessKey"
  | FDefaultBucket => "DefaultBucket"
  end.

Definition envVar (f : Field) : string :=
  match f with
  | FAccountID => "CFR2_ACCOUNT_ID"
  | FAccessKeyID => "CFR2_ACCESS_KEY_ID"
  | FSecretAccessKey => "CFR2_SECRET_ACCESS_KEY"
  | FDefaultBucket => "CFR2_DEFAULT_BUCKET"
  end.

Definition getField (f : Field) (cfg : R2Config) : string :=
  match f with
  | FAccountID => AccountID cfg
  | FAccessKeyID => AccessKeyID cfg
  | FSecretAccessKey => SecretAccessKey cfg
  | FDefaultBucket => DefaultBucket cfg
  end.

Definition allFields : list Field :=
  [FAccountID; FAccessKeyID; FSecretAccessKey; FDefaultBucket].

(** Step 2 of [LoadConfig]: the four assignments guarded by
    [os.Getenv(...) != ""], in source order. *)
Definition overrideWithEnv (env : gmap string string) (cfg : R2Config) : R2Config :=
  let cfg :=
    if negb (String.eqb (Getenv env "CFR2_ACCOUNT_ID") "")
    then mkR2Config (Getenv env "CFR2_ACCOUNT_ID") (AccessKeyID cfg)
                    (SecretAccessKey cfg) (DefaultBucket cfg)
    else cfg in
  let cfg :=
    if negb (String.eqb (Getenv env "CFR2_ACCESS_KEY_ID") "")
    then mkR2Config (AccountID cfg) (Getenv env "CFR2_ACCESS_KEY_ID")
                    (SecretAccessKey cfg) (DefaultBucket cfg)
    else cfg in
  let cfg :=
    if negb (String.eqb (Getenv env "CFR2_SECRET_ACCESS_KEY") "")
    then mkR2Config (AccountID cfg) (AccessKeyID cfg)
                    (Getenv env "CFR2_SECRET_ACCESS_KEY") (DefaultBucket cfg)
    else cfg in
  let cfg :=
    if negb (String.eqb (Getenv env "CFR2_DEFAULT_BUCKET") "")
    then mkR2Config (AccountID cfg) (AccessKeyID cfg)
                    (SecretAccessKey cfg) (Getenv env "CFR2_DEFAULT_BUCKET")
    else cfg in
  cfg.

(** The message of the error returned for a required field left empty. *)
Definition notSetError (f : Field) (expandedPath : string) : string :=
  fieldName f +:+ " is not set. Please provide it in " +:+ expandedPath
  +:+ " or via " +:+ envVar f +:+ " environment variable".

(** Step 3 of [LoadConfig]: the four checks, in source order. *)
Definition validate (expandedPath : string) (cfg : R2Config) : result R2Config :=
  if String.eqb (AccountID cfg) "" then Err (notSetError FAccountID expandedPath)
  else if String.eqb (AccessKeyID cfg) "" then Err (notSetError FAccessKeyID expandedPath)
  else if String.eqb (SecretAccessKey cfg) "" then Err (notSetError FSecretAccessKey expandedPath)
  else if String.eqb (DefaultBucket cfg) "" then Err (notSetError FDefaultBucket expandedPath)
  else Ok cfg.

Section WithDecoder.

(** [toml.Unmarshal(data, cfg)] of github.com/pelletier/go-toml/v2: the
    document decoded into [cfg] (a field the document does not mention
    keeps its value), or an error. *)
Variable Unmarshal : string -> R2Config -> result R2Config.

(** Step 1 of [LoadConfig]: the file is read when [os.Stat] succeeds. *)
Definition loadFile (fs : string -> FileState) (expandedPath : string)
    (cfg : R2Config) : result R2Config :=
  match fs expandedPath with
  | NoFile => Ok cfg
  | Unreadable err =>
      Err ("failed to read config file " +:+ expandedPath +:+ ": " +:+ err)
  | Contents data =>
      match Unmarshal data cfg with
      | Err err =>
          Err ("failed to unmarshal config file " +:+ expandedPath +:+ ": " +:+ err)
      | Ok cfg' => Ok cfg'
      end
  end.

(** LoadConfig loads the R2 configuration from a TOML file or environment
    variables. *)
Definition LoadConfig (fs : string -> FileState) (env : gmap string string)
    : result R2Config :=
  let cfg := emptyConfig in
  let expandedPath := expandPath env configFilePath in
  match loadFile fs expandedPath cfg with
  | Err err => Err err
  | Ok cfg => validate expandedPath (overrideWithEnv env cfg)
  end.

(** The configuration the file provides (empty when no file is read), and
    the configuration after the merge with the environment. *)
Definition fileConfig (fs : string -> FileState) (env : gmap string string)
    : R2Config :=
  match loadFile fs (expandPath env configFilePath) emptyConfig with
  | Ok cfg => cfg
  | Err _ => emptyConfig
  end.

Definition mergedConfig (fs : string -> FileState) (env : gmap string string)
    : R2Config :=
  overrideWithEnv env (fileConfig fs env).

End WithDecoder.

Definition allSet (cfg : R2Config) : bool :=
  forallb (fun f => negb (String.eqb (getField f cfg) "")) allFields.

(** The first field, in source order, that is empty. *)
Definition firstEmpty (cfg : R2Config) : option Field :=
  List.find (fun f => String.eqb (getField f cfg) "") allFields.

(** A decoder for the examples, for the documents of TOML whose lines
    are empty or of the form [Key = "value"]; any other line is a syntax
    error.  As go-toml does, it leaves aside a key that is no field of
    [R2Config]. *)
Fixpoint lines (s : string) (cur : string) : list string :=
  match s with
  | EmptyString => [String.rev cur]
  | String c s' =>
      if Ascii.eqb c "010"%char then String.rev cur :: lines s' ""
      else lines s' (String c cur)
  end.

(** The double quote. *)
Definition quote : ascii := "034"%char.

(** [s] split at the first [c]: what stands before it and after it. *)
Fixpoint splitAt (c : ascii) (s : string) : option (string * string) :=
  match s with
  | EmptyString => None
  | String d s' =>
      if Ascii.eqb d c then Some (EmptyString, s')
      else match splitAt c s' with
           | Some (before, after) => Some (String d before, after)
           | None => None
           end
  end.

(** The key and the value of a line [Key = "value"]. *)
Definition keyValue (line : string) : option (string * string) :=
  match splitAt " " line with
  | Some (key, String "=" (String " " (String q rest))) =>
      if Ascii.eqb q quote then
        match splitAt quote rest with
        | Some (value, EmptyString) => Some (key, value)
        | _ => None
        end
      else None
  | _ => None
  end.

Definition decodeLine (line : string) (cfg : R2Config) : result R2Config :=
  if String.eqb line "" then Ok cfg else
  match keyValue line with
  | None => Err "toml: expected a line of the form key = string"
  | Some (key, v) =>
      if String.eqb key "AccountID" then
        Ok (mkR2Config v (AccessKeyID cfg) (SecretAccessKey cfg) (DefaultBucket cfg))
      else if String.eqb key "AccessKeyID" then
        Ok (mkR2Config (AccountID cfg) v (SecretAccessKey cfg) (DefaultBucket cfg))
      else if String.eqb key "SecretAccessKey" then
        Ok (mkR2Config (AccountID cfg) (AccessKeyID cfg) v (DefaultBucket cfg))
      else if String.eqb key "DefaultBucket" then
        Ok (mkR2Config (AccountID cfg) (AccessKeyID cfg) (SecretAccessKey cfg) v)
      else Ok cfg
  end.

Fixpoint decodeLines (ls : list string) (cfg : R2Config) : result R2Config :=
  match ls with
  | [] => Ok cfg
  | l :: rest =>
      match decodeLine l cfg with
      | Err e => Err e
      | Ok cfg' => decodeLines rest cfg'
      end
  end.

(** The line [Key = "value"]. *)
Definition tomlLine (key value : string) : string :=
  key +:+ " = " +:+ String quote value +:+ String quote EmptyString.

Definition lineDecoder (data : string) (cfg : R2Config) : result R2Config :=
  decodeLines (lines data "") cfg.

End Config.

(* ===================================================================== *)
(** * The object store: the calls of the S3 client the program makes *)
(* ===================================================================== *)

Module S3.

(** [types.Object]: the key, and the size when the listing gives it. *)
Record Object : Type := mkObject {
  Key : string;
  Size : option Z
}.

Record CopyObjectInput : Type := mkCopyObjectInput {
  copy_Bucket : string;
  copy_CopySource : string;
  copy_Key : string
}.

Record DeleteObjectInput : Type := mkDeleteObjectInput {
  delete_Bucket : string;
  delete_Key : string
}.

Record ListObjectsV2Input : Type := mkListObjectsV2Input {
  list_Bucket : string;
  list_ContinuationToken : option string
}.

Record ListObjectsV2Output : Type := mkListObjectsV2Output {
  Contents : list Object;
  IsTruncated : option bool;
  NextContinuationToken : option string
}.

Record GetObjectInput : Type := mkGetObjectInput {
  get_Bucket : string;
  get_Key : string
}.

(** The response of GetObject: the content length when the response
    carries one, and the body as the chunks its [Read] yields, ended by
    EOF ([None]) or by an error. *)
Record GetObjectOutput : Type := mkGetObjectOutput {
  ContentLength : option Z;
  Body : list string;
  BodyError : option string
}.

(** The service behind the client, with state [S].  Each call returns the
    state it leaves behind.  [lookupObject] observes the store: the
    content held under a key of a bucket. *)
Class Service (S : Type) : Type := {
  copyObject : CopyObjectInput -> S -> S * option string;
  deleteObject : DeleteObjectInput -> S -> S * option string;
  listObjectsV2 : ListObjectsV2Input -> S -> S * result ListObjectsV2Output;
  getObject : GetObjectInput -> S -> S * result GetObjectOutput;
  presignGetObject : GetObjectInput -> Z -> S -> result string;
  lookupObject : S -> string -> string -> option string
}.

(** The requests a client has sent, in order. *)
Inductive Call : Type :=
| CopyCall (input : CopyObjectInput)
| DeleteCall (input : DeleteObjectInput)
| ListCall (input : ListObjectsV2Input)
| GetCall (input : GetObjectInput).

(** [*s3.Client]: the service it talks to and the requests sent so far. *)
Record Client (S : Type) : Type := mkClient {
  service : S;
  calls : list Call
}.
Arguments mkClient {S} service calls.
Arguments service {S} c.
Arguments calls {S} c.

Section ClientCalls.
Context {S : Type} `{Service S}.

Definition CopyObject (input : CopyObjectInput) (c : Client S)
    : Client S * option string :=
  let '(s', err) := copyObject input (service c) in
  (mkClient s' (calls c ++ [CopyCall input]), err).

Definition DeleteObject (input : DeleteObjectInput) (c : Client S)
    : Client S * option string :=
  let '(s', err) := deleteObject input (service c) in
  (mkClient s' (calls c ++ [DeleteCall input]), err).

Definition ListObjectsV2 (input : ListObjectsV2Input) (c : Client S)
    : Client S * result ListObjectsV2Output :=
  let '(s', r) := listObjectsV2 input (service c) in
  (mkClient s' (calls c ++ [ListCall input]), r).

Definition GetObject (input : GetObjectInput) (c : Client S)
    : Client S * result GetObjectOutput :=
  let '(s', r) := getObject input (service c) in
  (mkClient s' (calls c ++ [GetCall input]), r).

(** [s3.NewPresignClient(client).PresignGetObject] with [opts.Expires]
    set: signing sends no request. *)
Definition PresignGetObject (input : GetObjectInput) (expires : Z)
    (c : Client S) : result string :=
  presignGetObject input expires (service c).

End ClientCalls.

(** [s3.ListObjectsV2Paginator] of the SDK, as [ListObjects] builds it:
    no page limit, and [StopOnDuplicateToken] left off. *)
Record Paginator : Type := mkPaginator {
  params : ListObjectsV2Input;
  firstPage : bool;
  nextToken : option string
}.

Definition NewListObjectsV2Paginator (input : ListObjectsV2Input) : Paginator :=
  mkPaginator input true (list_ContinuationToken input).

Definition nonEmptyToken (t : option string) : bool :=
  match t with
  | Some s => negb (String.eqb s "")
  | None => false
  end.

Definition HasMorePages (p : Paginator) : bool :=
  firstPage p || nonEmptyToken (nextToken p).

(** The token the paginator keeps after a page: the page's next token when
    the page says it is truncated. *)
Definition tokenAfter (out : ListObjectsV2Output) : option string :=
  match IsTruncated out with
  | Some true => NextContinuationToken out
  | _ => None
  end.

Section PaginatorCalls.
Context {S : Type} `{Service S}.

Definition NextPage (p : Paginator) (c : Client S)
    : Client S * Paginator * result ListObjectsV2Output :=
  if negb (HasMorePages p) then (c, p, Err "no more pages available")
  else
    let input := mkListObjectsV2Input (list_Bucket (params p)) (nextToken p) in
    match ListObjectsV2 input c with
    | (c', Err err) => (c', p, Err err)
    | (c', Ok result) =>
        (c', mkPaginator (params p) false (tokenAfter result), Ok result)
    end.

End PaginatorCalls.

(** The source of a copy, [bucket/key]: the bucket is what stands before
    the first ['/']. *)
Fixpoint afterSlash (s : string) : string :=
  match s with
  | String c s' => if Ascii.eqb c "/"%char then s' else afterSlash s'
  | EmptyString => EmptyString
  end.

Definition parseCopySource (src : string) : string * string :=
  (Filepath.upToSlash src, afterSlash src).

End S3.

(* ===================================================================== *)
(** * What the program expects of the object store *)
(* ===================================================================== *)

Module StoreLaws.
Import S3.

Section Laws.
Context (S : Type) `{Service S}.

(** A request that fails leaves every object as it was. *)
Definition FailedCopyKeepsStore : Prop :=
  forall i s s' e, copyObject i s = (s', Some e) ->
    forall b k, lookupObject s' b k = lookupObject s b k.

Definition FailedDeleteKeepsStore : Prop :=
  forall i s s' e, deleteObject i s = (s', Some e) ->
    forall b k, lookupObject s' b k = lookupObject s b k.

(** A copy that succeeds found its source, and leaves the content of the
    source under the destination key; no other key changes. *)
Definition CopyCopies : Prop :=
  forall i s s', copyObject i s = (s', None) ->
    exists data,
      lookupObject s (parseCopySource (copy_CopySource i)).1
                     (parseCopySource (copy_CopySource i)).2 = Some data
      /\ lookupObject s' (copy_Bucket i) (copy_Key i) = Some data
      /\ forall b k, (b, k) <> (copy_Bucket i, copy_Key i) ->
            lookupObject s' b k = lookupObject s b k.

(** A delete that succeeds leaves nothing under the key; no other key
    changes. *)
Definition DeleteRemoves : Prop :=
  forall i s s', deleteObject i s = (s', None) ->
    lookupObject s' (delete_Bucket i) (delete_Key i) = None
    /\ forall b k, (b, k) <> (delete_Bucket i, delete_Key i) ->
          lookupObject s' b k = lookupObject s b k.

End Laws.

End StoreLaws.

(* ===================================================================== *)
(** * Paged listings *)
(* ===================================================================== *)

Module Listing.
Import S3.

Section Pages.
Context {S : Type} `{Service S}.

(** A page is followed by another when it says it is truncated and gives
    a non-empty continuation token. *)
Definition isLastPage (out : ListObjectsV2Output) : Prop :=
  IsTruncated out <> Some true
  \/ NextContinuationToken out = None
  \/ NextContinuationToken out = Some "".

(** [ServesPages bucket s token pages s']: asked for the listing of
    [bucket] from [token] on, the store in state [s] answers with the
    pages [pages], one request each, the last of which is the last page
    of the listing, and is then in state [s']. *)
Inductive ServesPages (bucket : string)
    : S -> option string -> list (list Object) -> S -> Prop :=
| serves_last (s : S) (token : option string) (out : ListObjectsV2Output) (s' : S) :
    listObjectsV2 (mkListObjectsV2Input bucket token) s = (s', Ok out) ->
    isLastPage out ->
    ServesPages bucket s token [Contents out] s'
| serves_more (s : S) (token : option string) (out : ListObjectsV2Output)
    (next : string) (s' : S) (pages : list (list Object)) (s'' : S) :
    listObjectsV2 (mkListObjectsV2Input bucket token) s = (s', Ok out) ->
    IsTruncated out = Some true ->
    NextContinuationToken out = Some next ->
    next <> "" ->
    ServesPages bucket s' (Some next) pages s'' ->
    ServesPages bucket s token (Contents out :: pages) s''.

(** [FailsAfter bucket s token pages e s']: the store answers with the
    pages [pages], each followed by another, and then fails the next
    request with [e]. *)
Inductive FailsAfter (bucket : string)
    : S -> option string -> list (list Object) -> string -> S -> Prop :=
| fails_now (s : S) (token : option string) (e : string) (s' : S) :
    listObjectsV2 (mkListObjectsV2Input bucket token) s = (s', Err e) ->
    FailsAfter bucket s token [] e s'
| fails_later (s : S) (token : option string) (out : ListObjectsV2Output)
    (next : string) (s' : S) (pages : list (list Object)) (e : string) (s'' : S) :
    listObjectsV2 (mkListObjectsV2Input bucket token) s = (s', Ok out) ->
    IsTruncated out = Some true ->
    NextContinuationToken out = Some next ->
    next <> "" ->
    FailsAfter bucket s' (Some next) pages e s'' ->
    FailsAfter bucket s token (Contents out :: pages) e s''.

End Pages.

End Listing.

(* ===================================================================== *)
(** * An object store in memory *)
(* ===================================================================== *)

Module MemStore.
Import S3.

(** The objects by bucket and key; what the coming calls run into
    ([Some e]: the call fails with [e] and changes nothing); the number of
    keys a listing page holds; whether a response carries its content
    length. *)
Record Store : Type := mkStore {
  objects : gmap (string * string) string;
  faults : list (option string);
  pageSize : nat;
  sendsLength : bool
}.

Definition withObjects (s : Store) (m : gmap (string * string) string) : Store :=
  mkStore m (faults s) (pageSize s) (sendsLength s).

Definition nextFault (s : Store) : option string * Store :=
  match faults s with
  | [] => (None, s)
  | f :: rest => (f, mkStore (objects s) rest (pageSize s) (sendsLength s))
  end.

Definition noSuchKey : string := "NoSuchKey: The specified key does not exist.".

Definition mem_copyObject (i : CopyObjectInput) (s : Store) : Store * option string :=
  let '(f, s1) := nextFault s in
  match f with
  | Some e => (s1, Some e)
  | None =>
      match objects s1 !! parseCopySource (copy_CopySource i) with
      | None => (s1, Some noSuchKey)
      | Some data =>
          (withObjects s1 (<[(copy_Bucket i, copy_Key i) := data]> (objects s1)), None)
      end
  end.

Definition mem_deleteObject (i : DeleteObjectInput) (s : Store) : Store * option string :=
  let '(f, s1) := nextFault s in
  match f with
  | Some e => (s1, Some e)
  | None =>
      (withObjects s1 (delete (delete_Bucket i, delete_Key i) (objects s1)), None)
  end.

(** The keys of a bucket with their sizes, in key order. *)
Definition bucketListing (s : Store) (bucket : string) : list Object :=
  merge_sort (fun a b : Object => String.leb (Key a) (Key b))
    (omap (fun '((b, k), data) =>
             if String.eqb b bucket
             then Some (mkObject k (Some (Z.of_nat (String.length data))))
             else None)
          (map_to_list (objects s))).

(** A page starts after the key the continuation token names. *)
Definition pageFrom (token : option string) (l : list Object) : list Object :=
  match token with
  | None => l
  | Some t => List.filter (fun o => String.ltb t (Key o)) l
  end.

Definition mem_listObjectsV2 (i : ListObjectsV2Input) (s : Store)
    : Store * result ListObjectsV2Output :=
  let '(f, s1) := nextFault s in
  match f with
  | Some e => (s1, Err e)
  | None =>
      let remaining := pageFrom (list_ContinuationToken i) (bucketListing s1 (list_Bucket i)) in
      let page := take (pageSize s1) remaining in
      let more := negb (Nat.leb (length remaining) (pageSize s1)) in
      (s1, Ok (mkListObjectsV2Output page (Some more)
                 (if more then Key <$> last page else None)))
  end.

Definition mem_getObject (i : GetObjectInput) (s : Store)
    : Store * result GetObjectOutput :=
  let '(f, s1) := nextFault s in
  match f with
  | Some e => (s1, Err e)
  | None =>
      match objects s1 !! (get_Bucket i, get_Key i) with
      | None => (s1, Err noSuchKey)
      | Some data =>
          (s1, Ok (mkGetObjectOutput
                     (if sendsLength s1 then Some (Z.of_nat (String.length data)) else None)
                     (if String.eqb data "" then [] else [data])
                     None))
      end
  end.

Definition mem_presignGetObject (i : GetObjectInput) (expires : Z) (s : Store)
    : result string :=
  Ok ("https://r2.example/" +:+ get_Bucket i +:+ "/" +:+ get_Key i
      +:+ "?X-Amz-Expires=" +:+ Fmt.formatInt (expires / 1000000000)).

Definition mem_lookupObject (s : Store) (bucket key : string) : option string :=
  objects s !! (bucket, key).

#[export] Instance memService : Service Store := {
  copyObject := mem_copyObject;
  deleteObject := mem_deleteObject;
  listObjectsV2 := mem_listObjectsV2;
  getObject := mem_getObject;
  presignGetObject := mem_presignGetObject;
  lookupObject := mem_lookupObject
}.

(** A store holding the given objects, answering without faults. *)
Definition storeOf (l : list (string * string * string)) (page : nat)
    (len : bool) : Store :=
  mkStore (list_to_map l) [] page len.

Definition newClient (s : Store) : Client Store := mkClient s [].

End MemStore.

(* ===================================================================== *)
(** * r2/operations.go *)
(* ===================================================================== *)

Module R2.
Import S3.

(** The messages of the three [fmt.Errorf] calls of [DeleteObject] and
    [RenameObject]; [err] is the message of the wrapped error. *)
Definition deleteFailed (objectKey bucketName err : string) : string :=
  "failed to delete object '" +:+ objectKey +:+ "' from bucket '" +:+ bucketName
  +:+ "': " +:+ err.

Definition copyFailed (oldObjectKey newObjectKey bucketName err : string) : string :=
  "failed to copy object from '" +:+ oldObjectKey +:+ "' to '" +:+ newObjectKey
  +:+ "' in bucket '" +:+ bucketName +:+ "': " +:+ err.

Definition copiedNotDeleted (oldObjectKey bucketName err : string) : string :=
  "copy successful but failed to delete original object '" +:+ oldObjectKey
  +:+ "' from bucket '" +:+ bucketName +:+ "': " +:+ err.

Section Operations.
Context {S : Type} `{Service S}.

(** The loop of [ListObjects].  Go returns the pair [(allObjects, err)];
    on an error the first component is [nil].  The loop runs as long as
    the paginator has pages; [fuel] bounds the number of iterations, and
    [None] means the bound was reached. *)
Fixpoint listPages (fuel : nat) (paginator : Paginator) (client : Client S)
    (allObjects : list Object)
    : option (Client S * (list Object * option string)) :=
  match fuel with
  | O => None
  | Datatypes.S fuel' =>
      if HasMorePages paginator then
        match NextPage paginator client with
        | (client', _, Err err) =>
            Some (client', ([], Some ("failed to list objects: " +:+ err)))
        | (client', paginator', Ok output) =>
            listPages fuel' paginator' client' (allObjects ++ Contents output)
        end
      else Some (client, (allObjects, None))
  end.

(** ListObjects lists all objects in the specified R2 bucket. *)
Definition ListObjects (fuel : nat) (client : Client S) (bucketName : string)
    : option (Client S * (list Object * option string)) :=
  let allObjects := [] in
  let input := mkListObjectsV2Input bucketName None in
  let paginator := NewListObjectsV2Paginator input in
  listPages fuel paginator client allObjects.

(** DeleteObject deletes an object from the specified R2 bucket. *)
Definition DeleteObject (client : Client S) (bucketName objectKey : string)
    : Client S * option string :=
  let input := mkDeleteObjectInput bucketName objectKey in
  match S3.DeleteObject input client with
  | (client', Some err) =>
      (client', Some (deleteFailed objectKey bucketName err))
  | (client', None) => (client', None)
  end.

(** RenameObject renames an object in the specified R2 bucket by copying
    it to a new key and deleting the original. *)
Definition RenameObject (client : Client S)
    (bucketName oldObjectKey newObjectKey : string)
    : Client S * option string :=
  let copyInput :=
    mkCopyObjectInput bucketName (bucketName +:+ "/" +:+ oldObjectKey) newObjectKey in
  match S3.CopyObject copyInput client with
  | (client', Some err) =>
      (client', Some (copyFailed oldObjectKey newObjectKey bucketName err))
  | (client', None) =>
      match DeleteObject client' bucketName oldObjectKey with
      | (client'', Some err) =>
          (* If deletion fails, return an error but the rename has already
             happened at the copy stage *)
          (client'', Some (copiedNotDeleted oldObjectKey bucketName err))
      | (client'', None) => (client'', None)
      end
  end.

End Operations.

(** The arguments of the [Fprintf] of a progress line. *)
Record ProgressLine : Type := mkProgressLine {
  shownTransferred : Z;
  shownTotal : Z;
  shownPercentage : float64
}.

(** The text of [Fprintf(os.Stdout, "\r%d / %d (%.2f%%)", ...)]. *)
Definition renderProgress (l : ProgressLine) : string :=
  Fmt.CR +:+ Fmt.formatInt (shownTransferred l) +:+ " / "
  +:+ Fmt.formatInt (shownTotal l)
  +:+ " (" +:+ Fmt.formatFixed2 (shownPercentage l) +:+ "%)".

(** progressWriter is a custom io.Writer that reports progress for
    downloads.  The embedded [io.Writer] is the argument [inner] of
    [Write]; the mutex guards the update of [transferred], which this
    sequential model performs in one step. *)
Record progressWriter : Type := mkProgressWriter {
  pw_total : Z;
  pw_transferred : Z
}.

(** [Write] returns the writer after the call, [(n, err)], and the
    progress line it printed, if any. *)
Definition Write (inner : string -> Z * option string) (pw : progressWriter)
    (p : string) : progressWriter * (Z * option string) * option ProgressLine :=
  let '(n, err) := inner p in
  match err with
  | Some e => (pw, (n, Some e), None)
  | None =>
      let pw := mkProgressWriter (pw_total pw) (add64 (pw_transferred pw) n) in
      let percentage :=
        fmul (fdiv (ofInt64 (pw_transferred pw)) (ofInt64 (pw_total pw)))
             (ofInt64 100) in
      (pw, (n, None),
       Some (mkProgressLine (pw_transferred pw) (pw_total pw) percentage))
  end.

(** progressReader is a custom io.Reader that reports progress for
    uploads.  [inner] is the answer [(n, err)] of the embedded
    [io.Reader]. *)
Record progressReader : Type := mkProgressReader {
  pr_total : Z;
  pr_transferred : Z
}.

Definition Read (inner : Z * option string) (pr : progressReader)
    : progressReader * (Z * option string) * option ProgressLine :=
  let '(n, err) := inner in
  match err with
  | Some e => (pr, (n, Some e), None)
  | None =>
      let pr := mkProgressReader (pr_total pr) (add64 (pr_transferred pr) n) in
      let percentage :=
        fmul (fdiv (ofInt64 (pr_transferred pr)) (ofInt64 (pr_total pr)))
             (ofInt64 10) in
      (pr, (n, None),
       Some (mkProgressLine (pr_transferred pr) (pr_total pr) percentage))
  end.

Definition printed (stdout : list string) (l : option ProgressLine) : list string :=
  match l with
  | Some l => (stdout ++ [renderProgress l])%list
  | None => stdout
  end.

(** [io.Copy(pw, resp.Body)]: neither side has a fast path, so this is the
    loop of [io.copyBuffer].  The reads of the body yield [chunks], then
    EOF or the error [bodyError].  The result is the error of the copy,
    with the writer and the standard output after it. *)
Fixpoint ioCopy (inner : string -> Z * option string) (pw : progressWriter)
    (chunks : list string) (bodyError : option string) (stdout : list string)
    : progressWriter * option string * list string :=
  match chunks with
  | [] => (pw, bodyError, stdout)
  | p :: rest =>
      let nr := Z.of_nat (String.length p) in
      if (0 <? nr)%Z then
        let '(pw', (nw, ew), line) := Write inner pw p in
        let stdout' := printed stdout line in
        let ew :=
          if ((nw <? 0) || (nr <? nw))%Z
          then match ew with None => Some "invalid write result" | _ => ew end
          else ew in
        match ew with
        | Some e => (pw', Some e, stdout')
        | None =>
            if negb (nr =? nw)%Z then (pw', Some "short write", stdout')
            else ioCopy inner pw' rest bodyError stdout'
        end
      else ioCopy inner pw rest bodyError stdout
  end.

Definition contentLengthWarning : string :=
  "Warning: ContentLength not available, download progress percentage will not be shown.".

Section Transfers.
Context {S : Type} `{Service S}.

(** DownloadObject downloads an object from the specified R2 bucket to a
    local file.  [create] is the error of [os.Create], if any, and
    [fileWrite] the answer of the created file to a write.  The result is
    the client, the error, and what was printed on the standard output. *)
Definition DownloadObject (create : string -> option string)
    (fileWrite : string -> Z * option string)
    (client : Client S) (bucketName objectKey localFilePath : string)
    : Client S * option string * list string :=
  let input := mkGetObjectInput bucketName objectKey in
  match S3.GetObject input client with
  | (client', Err err) =>
      (client', Some ("failed to get object '" +:+ objectKey +:+ "' from bucket '"
                      +:+ bucketName +:+ "': " +:+ err), [])
  | (client', Ok resp) =>
      match create localFilePath with
      | Some err =>
          (client', Some ("failed to create local file '" +:+ localFilePath
                          +:+ "': " +:+ err), [])
      | None =>
          let '(totalSize, stdout) :=
            match ContentLength resp with
            | Some n => (n, [])
            | None => (0%Z, [Fmt.Println contentLengthWarning])
            end in
          let pw := mkProgressWriter totalSize 0 in
          match ioCopy fileWrite pw (Body resp) (BodyError resp) stdout with
          | (_, Some err, stdout') =>
              (client', Some ("failed to write object content to file '"
                              +:+ localFilePath +:+ "': " +:+ err), stdout')
          | (_, None, stdout') =>
              (client', None, (stdout' ++ [Fmt.Println ""])%list)
          end
      end
  end.

(** [time.Hour], in nanoseconds ([time.Duration] is an int64). *)
Definition Hour : Z := 3600000000000.

(** GeneratePresignedURLWithExpiry generates a presigned URL for an
    object in the specified R2 bucket with a custom expiration time. *)
Definition GeneratePresignedURLWithExpiry (client : Client S)
    (bucketName objectKey : string) (expiry : Z) : result string :=
  let input := mkGetObjectInput bucketName objectKey in
  match S3.PresignGetObject input expiry client with
  | Err err =>
      Err ("failed to generate presigned URL for object '" +:+ objectKey
           +:+ "' in bucket '" +:+ bucketName +:+ "': " +:+ err)
  | Ok url => Ok url
  end.

(** GeneratePresignedURL generates a presigned URL for an object in the
    specified R2 bucket with a default expiration of 24 hours. *)
Definition GeneratePresignedURL (client : Client S)
    (bucketName objectKey : string) : result string :=
  GeneratePresignedURLWithExpiry client bucketName objectKey (24 * Hour)%Z.

End Transfers.

(** A file that takes every write whole. *)
Definition writeAll (p : string) : Z * option string :=
  (Z.of_nat (String.length p), None).

End R2.

(* ===================================================================== *)
(** * main.go *)
(* ===================================================================== *)

Module Main.
Import S3 Config.

(** What a command handler leaves behind: the lines printed on the
    standard output, and the message of [utils.ExitWithError] when the
    handler ends the process with it (exit status 1). *)
Record Outcome : Type := mkOutcome {
  stdout : list string;
  exitError : option string
}.

(** The flags of [download] and [presign] after [Parse]: [None] for a
    flag the command line does not give, which then keeps its default.
    The two names of a flag ([-o] and [--output], ...) set one variable. *)
Record DownloadFlags : Type := mkDownloadFlags {
  download_bucket : option string;
  download_key : option string;
  download_output : option string
}.

Record PresignFlags : Type := mkPresignFlags {
  presign_bucket : option string;
  presign_key : option string;
  presign_expiry : option Z
}.

Definition noBucket : string :=
  "Bucket name not specified. Use -b or --bucket flag, or set DefaultBucket in config.".
Definition noKey : string := "Object key not specified. Use -k or --key flag.".

(** The output path of [handleDownloadCommand].  [isDir p] tells whether
    [os.Stat(p)] succeeds and reports a directory. *)
Definition resolveOutputPath (isDir : string -> bool)
    (outputPath objectKey : string) : string :=
  let finalOutputPath := outputPath in
  if String.eqb finalOutputPath "" then
    let fileName := Strings.ReplaceAll objectKey "/" "_" in
    Filepath.Join ["."; fileName]
  else if isDir finalOutputPath then
    let fileName := Filepath.Base objectKey in
    Filepath.Join [finalOutputPath; fileName]
  else finalOutputPath.

Section Handlers.
Context {S : Type} `{Service S}.

Definition handleDownloadCommand (isDir : string -> bool)
    (create : string -> option string) (fileWrite : string -> Z * option string)
    (client : Client S) (cfg : R2Config) (flags : DownloadFlags)
    : Client S * Outcome :=
  let bucketName := default (DefaultBucket cfg) (download_bucket flags) in
  let objectKey := default "" (download_key flags) in
  let outputPath := default "" (download_output flags) in
  if String.eqb bucketName "" then (client, mkOutcome [] (Some noBucket))
  else if String.eqb objectKey "" then (client, mkOutcome [] (Some noKey))
  else
    let finalOutputPath := resolveOutputPath isDir outputPath objectKey in
    let announce :=
      Fmt.Println ("Downloading '" +:+ objectKey +:+ "' from bucket '" +:+ bucketName
                   +:+ "' to '" +:+ finalOutputPath +:+ "'...") in
    match R2.DownloadObject create fileWrite client bucketName objectKey finalOutputPath with
    | (client', Some err, out) =>
        (client',
         mkOutcome (announce :: out)
           (Some ("Failed to download object '" +:+ objectKey +:+ "': " +:+ err)))
    | (client', None, out) =>
        (client',
         mkOutcome
           (announce :: out ++
              [Fmt.Println ("Successfully downloaded '" +:+ objectKey +:+ "' to '"
                            +:+ finalOutputPath +:+ "'.")])%list
           None)
    end.

Definition handlePresignCommand (client : Client S) (cfg : R2Config)
    (flags : PresignFlags) : Outcome :=
  let bucketName := default (DefaultBucket cfg) (presign_bucket flags) in
  let objectKey := default "" (presign_key flags) in
  let expiryHours := default 24%Z (presign_expiry flags) in
  if String.eqb bucketName "" then mkOutcome [] (Some noBucket)
  else if String.eqb objectKey "" then mkOutcome [] (Some noKey)
  else
    let announce :=
      Fmt.Println ("Generating presigned URL for '" +:+ objectKey +:+ "' in bucket '"
                   +:+ bucketName +:+ "' with " +:+ Fmt.formatInt expiryHours
                   +:+ "-hour expiry...") in
    match R2.GeneratePresignedURLWithExpiry client bucketName objectKey
            (mul64 expiryHours R2.Hour) with
    | Err err =>
        mkOutcome [announce]
          (Some ("Failed to generate presigned URL for object '" +:+ objectKey
                 +:+ "': " +:+ err))
    | Ok url =>
        mkOutcome [announce; Fmt.Println ("Presigned URL: " +:+ url)] None
    end.

End Handlers.

End Main.

(* ===================================================================== *)
(** * Data for the examples *)
(* ===================================================================== *)

Module ConfigFixtures.
Import Config.

(** Environments and config files. *)
Definition envAll : gmap string string :=
  list_to_map [("HOME", "/home/u"); ("CFR2_ACCOUNT_ID", "env-acct");
               ("CFR2_ACCESS_KEY_ID", "env-key");
               ("CFR2_SECRET_ACCESS_KEY", "env-secret");
               ("CFR2_DEFAULT_BUCKET", "env-bucket")].

Definition envAccountOnly : gmap string string :=
  list_to_map [("HOME", "/home/u"); ("CFR2_ACCOUNT_ID", "env-acct");
               ("CFR2_ACCESS_KEY_ID", "")].

Definition cfgPath : string := "/home/u/.local/cfg/cfr2.toml".

Definition fullFile : string :=
  tomlLine "AccountID" "file-acct" +:+ Fmt.LF
  +:+ tomlLine "AccessKeyID" "file-key" +:+ Fmt.LF
  +:+ tomlLine "SecretAccessKey" "file-secret" +:+ Fmt.LF
  +:+ tomlLine "DefaultBucket" "file-bucket" +:+ Fmt.LF.

(** A file that gives the access key only, and a file that is no TOML. *)
Definition accessKeyFile : string := tomlLine "AccessKeyID" "k" +:+ Fmt.LF.
Definition brokenFile : string := "AccountID = " +:+ Fmt.LF.

Definition fsWith (data : string) (p : string) : FileState :=
  if String.eqb p cfgPath then Contents data else NoFile.

Definition fsNone (p : string) : FileState := NoFile.

End ConfigFixtures.

Module StoreFixtures.
Import S3 MemStore.

(** A bucket with three objects. *)
Definition threeObjects : list (string * string * string) :=
  [(("media", "docs/a.txt"), "hello"); (("media", "docs/b.txt"), "hi");
   (("media", "img/c.png"), "pixels")].

(** The store answers every request; pages of two keys. *)
Definition healthy : Store := storeOf threeObjects 2 true.

(** The first request fails. *)
Definition firstFails : Store :=
  mkStore (list_to_map threeObjects) [Some "connection reset"] 2 true.

(** The first request is answered, the second fails. *)
Definition secondFails : Store :=
  mkStore (list_to_map threeObjects) [None; Some "connection reset"] 2 true.

(** Responses carry no content length. *)
Definition noLength : Store := storeOf threeObjects 2 false.

Definition emptyBucket : Store := storeOf [] 2 true.

(** The listing of [threeObjects]. *)
Definition objA : Object := mkObject "docs/a.txt" (Some 5%Z).
Definition objB : Object := mkObject "docs/b.txt" (Some 2%Z).
Definition objC : Object := mkObject "img/c.png" (Some 6%Z).

End StoreFixtures.

(* ===================================================================== *)
(** * main.go: the handlers of list, delete and rename *)
(* ===================================================================== *)

Module Commands.
Import S3 Config Main.

(** The flags of the three commands after [Parse], as in [Main]. *)
Record ListFlags : Type := mkListFlags {
  listcmd_bucket : option string
}.

Record DeleteFlags : Type := mkDeleteFlags {
  deletecmd_bucket : option string;
  deletecmd_key : option string
}.

Record RenameFlags : Type := mkRenameFlags {
  renamecmd_bucket : option string;
  renamecmd_old : option string;
  renamecmd_new : option string
}.

Definition noOldKey : string :=
  "Old object key not specified. Use -old or --old-key flag.".
Definition noNewKey : string :=
  "New object key not specified. Use -new or --new-key flag.".
Definition noObjects : string := "No objects found in the bucket.".

(** The line [Printf("%s | %s\n", *obj.Key, sizeStr)] of an object. *)
Definition objectLine (obj : Object) : string :=
  let sizeStr :=
    match Size obj with
    | Some size => Fmt.formatInt size
    | None => "N/A"
    end in
  Key obj +:+ " | " +:+ sizeStr +:+ Fmt.LF.

Section Handlers.
Context {S : Type} `{Service S}.

(** [fuel] bounds the loop of [ListObjects]; [None] means the bound was
    reached. *)
Definition handleListCommand (fuel : nat) (client : Client S) (cfg : R2Config)
    (flags : ListFlags) : option (Client S * Outcome) :=
  let bucketName := default (DefaultBucket cfg) (listcmd_bucket flags) in
  if String.eqb bucketName "" then Some (client, mkOutcome [] (Some noBucket))
  else
    match R2.ListObjects fuel client bucketName with
    | None => None
    | Some (client', (_, Some err)) =>
        Some (client',
              mkOutcome []
                (Some ("Failed to list objects in bucket '" +:+ bucketName
                       +:+ "': " +:+ err)))
    | Some (client', (objects, None)) =>
        if Nat.eqb (length objects) 0
        then Some (client', mkOutcome [Fmt.Println noObjects] None)
        else Some (client', mkOutcome (List.map objectLine objects) None)
    end.

Definition handleDeleteCommand (client : Client S) (cfg : R2Config)
    (flags : DeleteFlags) : Client S * Outcome :=
  let bucketName := default (DefaultBucket cfg) (deletecmd_bucket flags) in
  let objectKey := default "" (deletecmd_key flags) in
  if String.eqb bucketName "" then (client, mkOutcome [] (Some noBucket))
  else if String.eqb objectKey "" then (client, mkOutcome [] (Some noKey))
  else
    let announce :=
      Fmt.Println ("Deleting '" +:+ objectKey +:+ "' from bucket '" +:+ bucketName
                   +:+ "'...") in
    match R2.DeleteObject client bucketName objectKey with
    | (client', Some err) =>
        (client',
         mkOutcome [announce]
           (Some ("Failed to delete object '" +:+ objectKey +:+ "': " +:+ err)))
    | (client', None) =>
        (client',
         mkOutcome
           [announce;
            Fmt.Println ("Successfully deleted '" +:+ objectKey +:+ "' from '"
                         +:+ bucketName +:+ "'.")]
           None)
    end.

Definition handleRenameCommand (client : Client S) (cfg : R2Config)
    (flags : RenameFlags) : Client S * Outcome :=
  let bucketName := default (DefaultBucket cfg) (renamecmd_bucket flags) in
  let oldObjectKey := default "" (renamecmd_old flags) in
  let newObjectKey := default "" (renamecmd_new flags) in
  if String.eqb bucketName "" then (client, mkOutcome [] (Some noBucket))
  else if String.eqb oldObjectKey "" then (client, mkOutcome [] (Some noOldKey))
  else if String.eqb newObjectKey "" then (client, mkOutcome [] (Some noNewKey))
  else
    let announce :=
      Fmt.Println ("Renaming '" +:+ oldObjectKey +:+ "' to '" +:+ newObjectKey
                   +:+ "' in bucket '" +:+ bucketName +:+ "'...") in
    match R2.RenameObject client bucketName oldObjectKey newObjectKey with
    | (client', Some err) =>
        (client',
         mkOutcome [announce]
           (Some ("Failed to rename object '" +:+ oldObjectKey +:+ "' to '"
                  +:+ newObjectKey +:+ "': " +:+ err)))
    | (client', None) =>
        (client',
         mkOutcome
           [announce;
            Fmt.Println ("Successfully renamed '" +:+ oldObjectKey +:+ "' to '"
                         +:+ newObjectKey +:+ "' in '" +:+ bucketName +:+ "'.")]
           None)
    end.

End Handlers.

End Commands.

(* ===================================================================== *)
(** * Paths in clean form *)
(* ===================================================================== *)

Module Paths.

(** A path element that [filepath.Clean] keeps: a name without
    separator, other than [.] and [..]. *)
Definition plainElement (e : string) : Prop :=
  Strings.contains "/" e = false /\ e <> "" /\ e <> "." /\ e <> "..".

(** The absolute path of the elements [es]. *)
Definition absolutePath (es : list string) : string :=
  "/" +:+ Strings.Join es "/".

End Paths.

(* ===================================================================== *)
(** * The counts a transfer shows *)
(* ===================================================================== *)

Module Transfer.

(** The number of bytes of a body read in [chunks]. *)
Definition bodyLength (chunks : list string) : Z :=
  fold_right (fun p acc => (Z.of_nat (String.length p) + acc)%Z) 0%Z chunks.

(** The counts after each chunk that is not empty, from the count [t]
    on. *)
Fixpoint runningTotals (t : Z) (chunks : list string) : list Z :=
  match chunks with
  | [] => []
  | p :: rest =>
      let n := Z.of_nat (String.length p) in
      if (0 <? n)%Z then (t + n)%Z :: runningTotals (t + n) rest
      else runningTotals t rest
  end.

(** The progress line of a download at the count [t]. *)
Definition downloadLine (total t : Z) : R2.ProgressLine :=
  R2.mkProgressLine t total (fmul (fdiv (ofInt64 t) (ofInt64 total)) (ofInt64 100)).

End Transfer.

(* ===================================================================== *)
(** * Properties of the configuration loader *)
(* ===================================================================== *)

Module ConfigFacts.
Import Config ConfigFixtures.

Lemma eqb_empty_false (s : string) : String.eqb s "" = false <-> s <> "".
Proof. apply String.eqb_neq. Qed.

(** Each guarded assignment of step 2 touches its own field only. *)
Lemma overrideWithEnv_field (env : gmap string string) (cfg : R2Config) (f : Field) :
  getField f (overrideWithEnv env cfg)
  = if String.eqb (Getenv env (envVar f)) "" then getField f cfg
    else Getenv env (envVar f).
Proof.
  unfold overrideWithEnv.
  destruct f; cbn [envVar];
    repeat match goal with
           | |- context [String.eqb (Getenv env ?v) ""] =>
               destruct (String.eqb (Getenv env v) ""); cbn
           end; reflexivity.
Qed.

Lemma validate_Ok_inv (path : string) (cfg c : R2Config) :
  validate path cfg = Ok c -> c = cfg.
Proof.
  unfold validate.
  repeat match goal with
         | |- context [String.eqb ?a ""] => destruct (String.eqb a "")
         end; congruence.
Qed.

Lemma validate_allSet (path : string) (cfg : R2Config) :
  allSet cfg = true -> validate path cfg = Ok cfg.
Proof.
  unfold allSet, validate, allFields. cbn.
  repeat match goal with
         | |- context [String.eqb ?a ""] => destruct (String.eqb a "")
         end; cbn; congruence.
Qed.

Lemma validate_firstEmpty (path : string) (cfg : R2Config) (f : Field) :
  firstEmpty cfg = Some f -> validate path cfg = Err (notSetError f path).
Proof.
  unfold firstEmpty, validate, allFields. cbn.
  repeat match goal with
         | |- context [String.eqb ?a ""] => destruct (String.eqb a "")
         end; intros Hf; inversion Hf; reflexivity.
Qed.

Lemma firstEmpty_None_allSet (cfg : R2Config) :
  firstEmpty cfg = None <-> allSet cfg = true.
Proof.
  unfold firstEmpty, allSet, allFields. cbn.
  repeat match goal with
         | |- context [String.eqb ?a ""] => destruct (String.eqb a "")
         end; cbn; split; congruence.
Qed.

Lemma firstEmpty_Some_empty (cfg : R2Config) (f : Field) :
  firstEmpty cfg = Some f -> getField f cfg = "".
Proof.
  unfold firstEmpty. intros Hf.
  apply List.find_some in Hf as [_ Hf]. by apply String.eqb_eq.
Qed.

Section LoadConfigFacts.
Variable Unmarshal : string -> R2Config -> result R2Config.

Lemma LoadConfig_file_error fs env e :
  loadFile Unmarshal fs (expandPath env configFilePath) emptyConfig = Err e ->
  LoadConfig Unmarshal fs env = Err e.
Proof. unfold LoadConfig. by intros ->. Qed.

Lemma LoadConfig_merged fs env fcfg :
  loadFile Unmarshal fs (expandPath env configFilePath) emptyConfig = Ok fcfg ->
  LoadConfig Unmarshal fs env
  = validate (expandPath env configFilePath) (mergedConfig Unmarshal fs env)
  /\ fileConfig Unmarshal fs env = fcfg.
Proof.
  unfold LoadConfig, mergedConfig, fileConfig. by intros ->.
Qed.

End LoadConfigFacts.

Example expandPath_home :
  expandPath envAll configFilePath = cfgPath.
Proof. vm_compute. reflexivity. Qed.

Example expandPath_no_home :
  expandPath ∅ configFilePath = "~/.local/cfg/cfr2.toml".
Proof. vm_compute. reflexivity. Qed.

Example LoadConfig_file_and_env :
  LoadConfig lineDecoder (fsWith fullFile) envAccountOnly
  = Ok (mkR2Config "env-acct" "file-key" "file-secret" "file-bucket").
Proof. vm_compute. reflexivity. Qed.

Example LoadConfig_env_only :
  LoadConfig lineDecoder fsNone envAll
  = Ok (mkR2Config "env-acct" "env-key" "env-secret" "env-bucket").
Proof. vm_compute. reflexivity. Qed.

Example LoadConfig_two_missing :
  LoadConfig lineDecoder (fsWith accessKeyFile) envAccountOnly
  = Err ("SecretAccessKey is not set. Please provide it in "
         +:+ "/home/u/.local/cfg/cfr2.toml"
         +:+ " or via CFR2_SECRET_ACCESS_KEY environment variable").
Proof. vm_compute. reflexivity. Qed.

(** C3.  When the config file is missing, or is read and decoded, into
    [fcfg], [LoadConfig] validates and returns the merged configuration:
    for each of the four fields, when its environment variable is set and
    non-empty the merged configuration holds the value of the variable,
    whatever the file provided; when the variable is unset or empty it
    keeps the value derived from the file.  So does every configuration
    [LoadConfig] returns, and it returns one as soon as no field is left
    empty by both sources. *)
Theorem C3_environment_overrides_file
    (Unmarshal : string -> R2Config -> result R2Config)
    (fs : string -> FileState) (env : gmap string string) (fcfg : R2Config) :
  loadFile Unmarshal fs (expandPath env configFilePath) emptyConfig = Ok fcfg ->
  exists merged,
    LoadConfig Unmarshal fs env = validate (expandPath env configFilePath) merged
    /\ (forall f, Getenv env (envVar f) <> "" ->
          getField f merged = Getenv env (envVar f))
    /\ (forall f, Getenv env (envVar f) = "" ->
          getField f merged = getField f fcfg)
    /\ (forall c, LoadConfig Unmarshal fs env = Ok c ->
          forall f,
            getField f c
            = if String.eqb (Getenv env (envVar f)) "" then getField f fcfg
              else Getenv env (envVar f))
    /\ ((forall f, Getenv env (envVar f) = "" -> getField f fcfg <> "") ->
        LoadConfig Unmarshal fs env = Ok merged).
Proof.
  intros Hfile. exists (overrideWithEnv env fcfg).
  assert (LoadConfig Unmarshal fs env
          = validate (expandPath env configFilePath) (overrideWithEnv env fcfg))
    as Hload by (unfold LoadConfig; by rewrite Hfile).
  split; [done|]. split; [|split; [|split]].
  - intros f Hset. rewrite overrideWithEnv_field.
    apply eqb_empty_false in Hset. by rewrite Hset.
  - intros f Hunset. rewrite overrideWithEnv_field. by rewrite Hunset.
  - intros c Hc f. rewrite Hload in Hc. apply validate_Ok_inv in Hc as ->.
    apply overrideWithEnv_field.
  - intros Hall. rewrite Hload. apply validate_allSet.
    unfold allSet. apply forallb_forall. intros f _.
    rewrite overrideWithEnv_field. apply negb_true_iff.
    destruct (String.eqb_spec (Getenv env (envVar f)) "") as [Hunset|Hset].
    + apply String.eqb_neq. by apply Hall.
    + by apply String.eqb_neq.
Qed.

(** The file gives all four fields and the environment sets the account
    only (and an empty access key): [LoadConfig] returns the account of
    the environment and the other three fields of the file. *)
Lemma C3_environment_overrides_file_witness :
  LoadConfig lineDecoder (fsWith fullFile) envAccountOnly
  = Ok (mkR2Config "env-acct" "file-key" "file-secret" "file-bucket")
  /\ (forall c, LoadConfig lineDecoder (fsWith fullFile) envAccountOnly = Ok c ->
        getField FAccountID c = "env-acct" /\ getField FAccessKeyID c = "file-key").
Proof.
  destruct (C3_environment_overrides_file lineDecoder (fsWith fullFile)
              envAccountOnly
              (mkR2Config "file-acct" "file-key" "file-secret" "file-bucket"))
    as (merged & Hload & Henv & Hfile & Hreturned & Hsucceeds).
  - vm_compute. reflexivity.
  - assert (LoadConfig lineDecoder (fsWith fullFile) envAccountOnly = Ok merged)
      as Hok.
    { apply Hsucceeds. intros [] Hunset; vm_compute in Hunset |- *; discriminate. }
    split.
    + rewrite Hok. f_equal.
      pose proof (Hreturned merged Hok) as Hfields.
      destruct merged as [a k sk b].
      pose proof (Hfields FAccountID) as Ha. pose proof (Hfields FAccessKeyID) as Hk.
      pose proof (Hfields FSecretAccessKey) as Hs.
      pose proof (Hfields FDefaultBucket) as Hb.
      vm_compute in Ha, Hk, Hs, Hb. by subst.
    + intros c Hc. split.
      * rewrite (Hreturned c Hc FAccountID). vm_compute. reflexivity.
      * rewrite (Hreturned c Hc FAccessKeyID). vm_compute. reflexivity.
Defined.

(** C7, as the specification states it, fails: with a config file that
    does not decode, all four fields are non-empty after the merge with
    the environment, and loading fails all the same.  And with two fields
    left empty the error names the first of them only. *)
Lemma C7_counterexample :
  (allSet (mergedConfig lineDecoder (fsWith brokenFile) envAll) = true
   /\ is_Ok (LoadConfig lineDecoder (fsWith brokenFile) envAll) = false)
  /\ (getField FDefaultBucket
        (mergedConfig lineDecoder (fsWith accessKeyFile) envAccountOnly) = ""
      /\ LoadConfig lineDecoder (fsWith accessKeyFile) envAccountOnly
         <> Err (notSetError FDefaultBucket cfgPath)).
Proof.
  split; split; try (vm_compute; reflexivity).
  vm_compute. discriminate.
Qed.

(** C7, amended.  When the config file is missing, or is read and decoded
    without error, loading succeeds exactly when all four required fields
    are non-empty after the merge, and then returns the merged
    configuration; otherwise it fails with the error that names the first
    empty field in the order AccountID, AccessKeyID, SecretAccessKey,
    DefaultBucket.  A missing file is not an error.  A file that exists
    and cannot be read or decoded makes loading fail, whatever the
    environment holds. *)
Theorem C7_load_succeeds_iff_all_set
    (Unmarshal : string -> R2Config -> result R2Config)
    (fs : string -> FileState) (env : gmap string string) :
  let path := expandPath env configFilePath in
  let merged := mergedConfig Unmarshal fs env in
  (fs path = NoFile -> loadFile Unmarshal fs path emptyConfig = Ok emptyConfig)
  /\ (forall fcfg, loadFile Unmarshal fs path emptyConfig = Ok fcfg ->
        (is_Ok (LoadConfig Unmarshal fs env) = true <-> allSet merged = true)
        /\ (allSet merged = true -> LoadConfig Unmarshal fs env = Ok merged)
        /\ (forall f, firstEmpty merged = Some f ->
              getField f merged = ""
              /\ LoadConfig Unmarshal fs env = Err (notSetError f path)))
  /\ (forall e, loadFile Unmarshal fs path emptyConfig = Err e ->
        LoadConfig Unmarshal fs env = Err e).
Proof.
  intros path merged. split; [|split].
  - unfold loadFile. by intros ->.
  - intros fcfg Hfile.
    destruct (LoadConfig_merged Unmarshal fs env fcfg Hfile) as [Hload _].
    fold path merged in Hload. rewrite Hload.
    split; [|split].
    + split.
      * destruct (firstEmpty merged) as [f|] eqn:Hfirst.
        -- by rewrite (validate_firstEmpty path merged f Hfirst).
        -- intros _. by apply firstEmpty_None_allSet.
      * intros Hall. by rewrite (validate_allSet path merged Hall).
    + apply validate_allSet.
    + intros f Hfirst. split.
      * by apply firstEmpty_Some_empty.
      * by apply validate_firstEmpty.
  - apply LoadConfig_file_error.
Qed.

(** No file, all four variables set: loading returns the environment's
    values.  File with the access key only, account from the environment:
    the error names SecretAccessKey, the first field left empty. *)
Lemma C7_load_succeeds_iff_all_set_witness :
  LoadConfig lineDecoder fsNone envAll
  = Ok (mergedConfig lineDecoder fsNone envAll)
  /\ LoadConfig lineDecoder (fsWith accessKeyFile) envAccountOnly
     = Err (notSetError FSecretAccessKey cfgPath)
  /\ LoadConfig lineDecoder (fsWith brokenFile) envAll
     = Err ("failed to unmarshal config file " +:+ cfgPath
            +:+ ": toml: expected a line of the form key = string").
Proof.
  split; [|split].
  - apply (C7_load_succeeds_iff_all_set lineDecoder fsNone envAll) with
      (fcfg := emptyConfig); vm_compute; reflexivity.
  - apply (C7_load_succeeds_iff_all_set lineDecoder (fsWith accessKeyFile)
             envAccountOnly) with (fcfg := mkR2Config "" "k" "" "");
      vm_compute; reflexivity.
  - apply (C7_load_succeeds_iff_all_set lineDecoder (fsWith brokenFile) envAll).
    vm_compute. reflexivity.
Defined.

End ConfigFacts.

(* ===================================================================== *)
(** * The store in memory meets the expectations *)
(* ===================================================================== *)

Module MemStoreFacts.
Import S3 StoreLaws MemStore.

Lemma nextFault_objects (s s1 : Store) (f : option string) :
  nextFault s = (f, s1) -> objects s1 = objects s.
Proof.
  unfold nextFault. destruct (faults s); intros [= <- <-]; reflexivity.
Qed.

Lemma mem_FailedCopyKeepsStore : FailedCopyKeepsStore Store.
Proof.
  intros i s s' e Hcopy b k. cbn in *. unfold mem_copyObject, mem_lookupObject in *.
  destruct (nextFault s) as [f s1] eqn:Hf. apply nextFault_objects in Hf.
  destruct f as [e0|].
  - injection Hcopy as <- _. by rewrite Hf.
  - destruct (objects s1 !! _); [discriminate|].
    injection Hcopy as <- _. by rewrite Hf.
Qed.

Lemma mem_FailedDeleteKeepsStore : FailedDeleteKeepsStore Store.
Proof.
  intros i s s' e Hdel b k. cbn in *. unfold mem_deleteObject, mem_lookupObject in *.
  destruct (nextFault s) as [f s1] eqn:Hf. apply nextFault_objects in Hf.
  destruct f as [e0|]; [|discriminate].
  injection Hdel as <- _. by rewrite Hf.
Qed.

Lemma mem_CopyCopies : CopyCopies Store.
Proof.
  intros i s s' Hcopy. cbn in *. unfold mem_copyObject, mem_lookupObject in *.
  destruct (nextFault s) as [f s1] eqn:Hf. apply nextFault_objects in Hf.
  destruct f as [e0|]; [discriminate|].
  destruct (objects s1 !! parseCopySource (copy_CopySource i)) as [data|] eqn:Hsrc;
    [|discriminate].
  injection Hcopy as <-. exists data. cbn. split; [|split].
  - rewrite <- Hf. exact Hsrc.
  - apply lookup_insert_eq.
  - intros b k Hne. rewrite lookup_insert_ne; [by rewrite Hf | congruence].
Qed.

Lemma mem_DeleteRemoves : DeleteRemoves Store.
Proof.
  intros i s s' Hdel. cbn in *. unfold mem_deleteObject, mem_lookupObject in *.
  destruct (nextFault s) as [f s1] eqn:Hf. apply nextFault_objects in Hf.
  destruct f as [e0|]; [discriminate|].
  injection Hdel as <-. cbn. split.
  - apply lookup_delete_eq.
  - intros b k Hne. rewrite lookup_delete_ne; [by rewrite Hf | congruence].
Qed.

End MemStoreFacts.

(* ===================================================================== *)
(** * Properties of rename *)
(* ===================================================================== *)

Module RenameFacts.
Import S3 StoreLaws R2 MemStore StoreFixtures.

#[local] Arguments Ascii.eqb : simpl never.
Local Open Scope list_scope.

Lemma upToSlash_append (b rest : string) :
  Strings.contains "/" b = false ->
  Filepath.upToSlash (b +:+ String "/" rest) = b.
Proof.
  induction b as [|c b IH]; simpl; [done|].
  destruct (Ascii.eqb c "/"); simpl; [done|].
  intros Hb. by rewrite IH.
Qed.

Lemma afterSlash_append (b rest : string) :
  Strings.contains "/" b = false ->
  afterSlash (b +:+ String "/" rest) = rest.
Proof.
  induction b as [|c b IH]; simpl; [done|].
  destruct (Ascii.eqb c "/"); simpl; [done|].
  intros Hb. by rewrite IH.
Qed.

(** The copy source [RenameObject] builds names the old key of the
    bucket. *)
Lemma parseCopySource_rename (bucket key : string) :
  Strings.contains "/" bucket = false ->
  parseCopySource (bucket +:+ "/" +:+ key) = (bucket, key).
Proof.
  intros Hb. unfold parseCopySource.
  change (bucket +:+ "/" +:+ key) with (bucket +:+ String "/" key).
  by rewrite upToSlash_append, afterSlash_append.
Qed.

Local Abbreviation copyInputOf bucket old new :=
  (mkCopyObjectInput bucket (bucket +:+ "/" +:+ old) new).

Section Rename.
Context {S : Type} `{Service S}.

(** The three ways through [RenameObject]. *)
Lemma RenameObject_copy_fails (client : Client S) bucket old new s1 e :
  copyObject (copyInputOf bucket old new) (service client) = (s1, Some e) ->
  RenameObject client bucket old new
  = (mkClient s1 (calls client ++ [CopyCall (copyInputOf bucket old new)]),
     Some (copyFailed old new bucket e)).
Proof.
  intros Hcopy. unfold RenameObject, CopyObject in *.
  by rewrite Hcopy.
Qed.

Lemma RenameObject_delete_fails (client : Client S) bucket old new s1 s2 e :
  copyObject (copyInputOf bucket old new) (service client) = (s1, None) ->
  deleteObject (mkDeleteObjectInput bucket old) s1 = (s2, Some e) ->
  RenameObject client bucket old new
  = (mkClient s2 (calls client ++ [CopyCall (copyInputOf bucket old new);
                                   DeleteCall (mkDeleteObjectInput bucket old)]),
     Some (copiedNotDeleted old bucket (deleteFailed old bucket e))).
Proof.
  intros Hcopy Hdel.
  unfold RenameObject, R2.DeleteObject, CopyObject, S3.DeleteObject in *.
  rewrite Hcopy. cbn. rewrite Hdel. by rewrite <- app_assoc.
Qed.

Lemma RenameObject_succeeds (client : Client S) bucket old new s1 s2 :
  copyObject (copyInputOf bucket old new) (service client) = (s1, None) ->
  deleteObject (mkDeleteObjectInput bucket old) s1 = (s2, None) ->
  RenameObject client bucket old new
  = (mkClient s2 (calls client ++ [CopyCall (copyInputOf bucket old new);
                                   DeleteCall (mkDeleteObjectInput bucket old)]),
     None).
Proof.
  intros Hcopy Hdel.
  unfold RenameObject, R2.DeleteObject, CopyObject, S3.DeleteObject in *.
  rewrite Hcopy. cbn. rewrite Hdel. by rewrite <- app_assoc.
Qed.

Lemma RenameObject_copied_calls (client : Client S) bucket old new s1 :
  copyObject (copyInputOf bucket old new) (service client) = (s1, None) ->
  calls (RenameObject client bucket old new).1
  = calls client ++ [CopyCall (copyInputOf bucket old new);
                     DeleteCall (mkDeleteObjectInput bucket old)].
Proof.
  intros Hcopy.
  destruct (deleteObject (mkDeleteObjectInput bucket old) s1) as [s2 [e|]] eqn:Hdel.
  - by rewrite (RenameObject_delete_fails client bucket old new s1 s2 e).
  - by rewrite (RenameObject_succeeds client bucket old new s1 s2).
Qed.

(** The message of the partial failure is not a message of the failure of
    the copy. *)
Lemma copiedNotDeleted_distinct old bucket e o n b e' :
  copiedNotDeleted old bucket e <> copyFailed o n b e'.
Proof. unfold copiedNotDeleted, copyFailed. simpl. discriminate. Qed.

End Rename.

(** C4.  Rename is copy, then delete: the requests it sends are the copy
    of the old key to the new key and, when the copy succeeded, the delete
    of the old key.  When the copy fails, rename returns the error of the
    copy and sends no delete, and every object of the store is as it was
    before (given that a copy that fails changes nothing in the store). *)
Theorem C4_rename_copy_failure {S : Type} `{Service S}
    (client : Client S) (bucket old new : string) :
  FailedCopyKeepsStore S ->
  (forall s1, copyObject (copyInputOf bucket old new) (service client) = (s1, None) ->
     calls (RenameObject client bucket old new).1
     = calls client ++ [CopyCall (copyInputOf bucket old new);
                        DeleteCall (mkDeleteObjectInput bucket old)])
  /\ (forall s1 e,
        copyObject (copyInputOf bucket old new) (service client) = (s1, Some e) ->
        (RenameObject client bucket old new).2 = Some (copyFailed old new bucket e)
        /\ calls (RenameObject client bucket old new).1
           = calls client ++ [CopyCall (copyInputOf bucket old new)]
        /\ forall b k,
             lookupObject (service (RenameObject client bucket old new).1) b k
             = lookupObject (service client) b k).
Proof.
  intros Hkeeps. split.
  - intros s1. apply RenameObject_copied_calls.
  - intros s1 e Hcopy.
    rewrite (RenameObject_copy_fails client bucket old new s1 e Hcopy). simpl.
    repeat split. intros b k. by apply (Hkeeps _ _ _ _ Hcopy).
Qed.

(** The first request fails: rename reports the failed copy, has sent the
    copy only, and [docs/a.txt] is still there. *)
Lemma C4_rename_copy_failure_witness :
  (RenameObject (newClient firstFails)
     "media" "docs/a.txt" "docs/z.txt").2
  = Some (copyFailed "docs/a.txt" "docs/z.txt" "media" "connection reset")
  /\ calls (RenameObject (newClient firstFails)
              "media" "docs/a.txt" "docs/z.txt").1
     = [CopyCall (copyInputOf "media" "docs/a.txt" "docs/z.txt")]
  /\ forall b k,
       lookupObject (service (RenameObject (newClient firstFails)
                                "media" "docs/a.txt" "docs/z.txt").1) b k
       = lookupObject firstFails b k.
Proof.
  refine (proj2 (C4_rename_copy_failure (newClient firstFails)
                   "media" "docs/a.txt" "docs/z.txt"
                   MemStoreFacts.mem_FailedCopyKeepsStore)
            (MemStore.mkStore (list_to_map threeObjects) [] 2 true)
            "connection reset" _).
  vm_compute. reflexivity.
Defined.

(** C5.  When the copy succeeds and the delete of the old key fails,
    rename returns an error whose message says that the copy succeeded and
    the delete failed (no failure of the copy has this message); it sends
    no request after the failed delete, so the copy is not rolled back;
    and the store then holds the content of the old key under both the old
    and the new key (given that a copy that succeeds copies, and a delete
    that fails changes nothing). *)
Theorem C5_rename_delete_failure {S : Type} `{Service S}
    (client : Client S) (bucket old new : string) (s1 s2 : S) (e : string) :
  CopyCopies S ->
  FailedDeleteKeepsStore S ->
  Strings.contains "/" bucket = false ->
  copyObject (copyInputOf bucket old new) (service client) = (s1, None) ->
  deleteObject (mkDeleteObjectInput bucket old) s1 = (s2, Some e) ->
  (RenameObject client bucket old new).2
  = Some (copiedNotDeleted old bucket (deleteFailed old bucket e))
  /\ (forall o n b e',
        (RenameObject client bucket old new).2 <> Some (copyFailed o n b e'))
  /\ calls (RenameObject client bucket old new).1
     = calls client ++ [CopyCall (copyInputOf bucket old new);
                        DeleteCall (mkDeleteObjectInput bucket old)]
  /\ exists data,
       lookupObject (service client) bucket old = Some data
       /\ lookupObject (service (RenameObject client bucket old new).1) bucket old
          = Some data
       /\ lookupObject (service (RenameObject client bucket old new).1) bucket new
          = Some data.
Proof.
  intros Hcopies Hkeeps Hbucket Hcopy Hdel.
  rewrite (RenameObject_delete_fails client bucket old new s1 s2 e Hcopy Hdel).
  cbn [fst snd service calls]. split; [done|]. split.
  - intros o n b e' Heq.
    apply (copiedNotDeleted_distinct old bucket (deleteFailed old bucket e) o n b e').
    congruence.
  - split; [done|].
    destruct (Hcopies _ _ _ Hcopy) as (data & Hsrc & Hdst & Hothers).
    cbn [copy_CopySource copy_Bucket copy_Key] in Hsrc, Hdst, Hothers.
    rewrite (parseCopySource_rename bucket old Hbucket) in Hsrc.
    cbn [fst snd] in Hsrc.
    exists data. split; [done|].
    rewrite !(Hkeeps _ _ _ _ Hdel). split; [|done].
    destruct (decide (old = new)) as [->|Hne]; [done|].
    rewrite Hothers; [done | congruence].
Qed.

(** The copy is answered and the delete fails: [docs/a.txt] and
    [docs/z.txt] both hold [hello]. *)
Lemma C5_rename_delete_failure_witness :
  (RenameObject (newClient secondFails)
     "media" "docs/a.txt" "docs/z.txt").2
  = Some (copiedNotDeleted "docs/a.txt" "media"
            (deleteFailed "docs/a.txt" "media" "connection reset"))
  /\ lookupObject (service (RenameObject (newClient secondFails)
                              "media" "docs/a.txt" "docs/z.txt").1)
       "media" "docs/a.txt" = Some "hello"
  /\ lookupObject (service (RenameObject (newClient secondFails)
                              "media" "docs/a.txt" "docs/z.txt").1)
       "media" "docs/z.txt" = Some "hello".
Proof.
  destruct (C5_rename_delete_failure
              (newClient secondFails)
              "media" "docs/a.txt" "docs/z.txt"
              (MemStore.mem_copyObject (copyInputOf "media" "docs/a.txt" "docs/z.txt")
                 secondFails).1
              (MemStore.mem_deleteObject (mkDeleteObjectInput "media" "docs/a.txt")
                 (MemStore.mem_copyObject (copyInputOf "media" "docs/a.txt" "docs/z.txt")
                    secondFails).1).1
              "connection reset"
              MemStoreFacts.mem_CopyCopies MemStoreFacts.mem_FailedDeleteKeepsStore)
    as (Herr & _ & _ & data & Hbefore & Hold & Hnew).
  - vm_compute. reflexivity.
  - vm_compute. reflexivity.
  - vm_compute. reflexivity.
  - assert (data = "hello") as ->.
    { vm_compute in Hbefore. by injection Hbefore. }
    by repeat split.
Defined.

(** C10.  Rename compares the two keys nowhere: asked to rename a key to
    itself it sends the copy of the key onto itself, and when that copy
    succeeds it sends the delete of the key; when the delete succeeds
    too, rename reports success and the store holds nothing under the key
    (given that a delete that succeeds removes the object). *)
Theorem C10_rename_onto_itself {S : Type} `{Service S}
    (client : Client S) (bucket k : string) :
  DeleteRemoves S ->
  (exists rest,
     calls (RenameObject client bucket k k).1
     = calls client ++ CopyCall (copyInputOf bucket k k) :: rest)
  /\ (forall s1,
        copyObject (copyInputOf bucket k k) (service client) = (s1, None) ->
        calls (RenameObject client bucket k k).1
        = calls client ++ [CopyCall (copyInputOf bucket k k);
                           DeleteCall (mkDeleteObjectInput bucket k)]
        /\ forall s2,
             deleteObject (mkDeleteObjectInput bucket k) s1 = (s2, None) ->
             (RenameObject client bucket k k).2 = None
             /\ lookupObject (service (RenameObject client bucket k k).1) bucket k
                = None).
Proof.
  intros Hremoves. split.
  - destruct (copyObject (copyInputOf bucket k k) (service client))
      as [s1 [e|]] eqn:Hcopy.
    + rewrite (RenameObject_copy_fails client bucket k k s1 e Hcopy). by exists [].
    + rewrite (RenameObject_copied_calls client bucket k k s1 Hcopy). by eexists.
  - intros s1 Hcopy. split.
    + by apply (RenameObject_copied_calls client bucket k k s1).
    + intros s2 Hdel.
      rewrite (RenameObject_succeeds client bucket k k s1 s2 Hcopy Hdel). simpl.
      split; [done|]. by destruct (Hremoves _ _ _ Hdel) as [Hgone _].
Qed.

(** The store in memory accepts the copy of [docs/a.txt] onto itself:
    after the rename the key is gone. *)
Lemma C10_rename_onto_itself_witness :
  (RenameObject (newClient healthy)
     "media" "docs/a.txt" "docs/a.txt").2 = None
  /\ lookupObject (service (RenameObject (newClient healthy)
                              "media" "docs/a.txt" "docs/a.txt").1)
       "media" "docs/a.txt" = None.
Proof.
  refine (proj2 (proj2 (C10_rename_onto_itself
                          (newClient healthy)
                          "media" "docs/a.txt" MemStoreFacts.mem_DeleteRemoves)
                   (MemStore.mem_copyObject (copyInputOf "media" "docs/a.txt" "docs/a.txt")
                      healthy).1 _)
            (MemStore.mem_deleteObject (mkDeleteObjectInput "media" "docs/a.txt")
               (MemStore.mem_copyObject (copyInputOf "media" "docs/a.txt" "docs/a.txt")
                  healthy).1).1 _).
  - vm_compute. reflexivity.
  - vm_compute. reflexivity.
Defined.

Example rename_moves_the_object :
  let r := RenameObject (newClient healthy)
             "media" "docs/a.txt" "docs/z.txt" in
  r.2 = None
  /\ lookupObject (service r.1) "media" "docs/a.txt" = None
  /\ lookupObject (service r.1) "media" "docs/z.txt" = Some "hello".
Proof. vm_compute. repeat split. Qed.

Example rename_of_a_missing_key :
  (RenameObject (newClient healthy)
     "media" "nope" "docs/z.txt").2
  = Some (copyFailed "nope" "docs/z.txt" "media" MemStore.noSuchKey).
Proof. vm_compute. reflexivity. Qed.

End RenameFacts.

(* ===================================================================== *)
(** * Properties of list *)
(* ===================================================================== *)

Module ListFacts.
Import S3 Listing R2 MemStore StoreFixtures.

Local Open Scope list_scope.

Lemma isLastPage_token (out : ListObjectsV2Output) :
  isLastPage out -> nonEmptyToken (tokenAfter out) = false.
Proof.
  unfold isLastPage, tokenAfter.
  destruct (IsTruncated out) as [[|]|]; try done.
  intros [Hnot|[->| ->]]; done.
Qed.

Lemma morePages_token (out : ListObjectsV2Output) (next : string) :
  IsTruncated out = Some true ->
  NextContinuationToken out = Some next ->
  next <> "" ->
  tokenAfter out = Some next /\ nonEmptyToken (Some next) = true.
Proof.
  unfold tokenAfter. intros -> -> Hnext. split; [done|].
  simpl. by apply String.eqb_neq in Hnext as ->.
Qed.

Section Pages.
Context {S : Type} `{Service S}.

(** One turn of the loop when the store answers the request. *)
Lemma NextPage_answered (p : Paginator) (client : Client S) out s' :
  HasMorePages p = true ->
  listObjectsV2 (mkListObjectsV2Input (list_Bucket (params p)) (nextToken p))
    (service client) = (s', Ok out) ->
  NextPage p client
  = (mkClient s' (calls client
                  ++ [ListCall (mkListObjectsV2Input (list_Bucket (params p)) (nextToken p))]),
     mkPaginator (params p) false (tokenAfter out), Ok out).
Proof.
  intros Hmore Hanswer. unfold NextPage, ListObjectsV2.
  by rewrite Hmore, Hanswer.
Qed.

Lemma NextPage_failed (p : Paginator) (client : Client S) e s' :
  HasMorePages p = true ->
  listObjectsV2 (mkListObjectsV2Input (list_Bucket (params p)) (nextToken p))
    (service client) = (s', Err e) ->
  NextPage p client
  = (mkClient s' (calls client
                  ++ [ListCall (mkListObjectsV2Input (list_Bucket (params p)) (nextToken p))]),
     p, Err e).
Proof.
  intros Hmore Hanswer. unfold NextPage, ListObjectsV2.
  by rewrite Hmore, Hanswer.
Qed.

(** The loop drains the pages the store serves, appending them in order. *)
Lemma listPages_drains (bucket : string) s token pages s' :
  ServesPages bucket s token pages s' ->
  forall (p : Paginator) (client : Client S) (acc : list Object) (fuel : nat),
    list_Bucket (params p) = bucket ->
    nextToken p = token ->
    service client = s ->
    HasMorePages p = true ->
    length pages < fuel ->
    exists client',
      listPages fuel p client acc = Some (client', (acc ++ concat pages, None))
      /\ service client' = s'
      /\ length (calls client') = length (calls client) + length pages.
Proof.
  induction 1 as [s token out s' Hanswer Hlast
                 |s token out next s' pages s'' Hanswer Htrunc Hnext Hne _ IH];
    intros p client acc fuel Hbucket Htoken Hservice Hmore Hfuel;
    subst bucket token s.
  - destruct fuel as [|[|fuel]]; simpl in Hfuel; try lia.
    cbn [listPages]. rewrite Hmore.
    rewrite (NextPage_answered p client out s' Hmore Hanswer).
    unfold HasMorePages at 1. cbn [firstPage nextToken orb].
    rewrite (isLastPage_token out Hlast).
    eexists. split.
    { cbn [concat]. rewrite app_nil_r. reflexivity. }
    split; [done|]. cbn [calls]. rewrite length_app. simpl. lia.
  - destruct fuel as [|fuel]; simpl in Hfuel; try lia.
    cbn [listPages]. rewrite Hmore.
    rewrite (NextPage_answered p client out s' Hmore Hanswer).
    destruct (morePages_token out next Htrunc Hnext Hne) as [Htok Hnonempty].
    edestruct (IH (mkPaginator (params p) false (tokenAfter out))
                 (mkClient s' (calls client
                    ++ [ListCall (mkListObjectsV2Input (list_Bucket (params p)) (nextToken p))]))
                 (acc ++ Contents out) fuel)
      as (client' & Hrun & Hstate & Hcalls); try done.
    + unfold HasMorePages. cbn [firstPage nextToken orb]. by rewrite Htok.
    + lia.
    + exists client'. split; [|split]; [| done |].
      * rewrite Hrun. cbn [concat]. by rewrite app_assoc.
      * rewrite Hcalls. cbn [calls]. rewrite length_app. simpl. lia.
Qed.

(** A request that fails ends the loop with the error and no objects. *)
Lemma listPages_fails (bucket : string) s token pages e s' :
  FailsAfter bucket s token pages e s' ->
  forall (p : Paginator) (client : Client S) (acc : list Object) (fuel : nat),
    list_Bucket (params p) = bucket ->
    nextToken p = token ->
    service client = s ->
    HasMorePages p = true ->
    length pages < fuel ->
    exists client',
      listPages fuel p client acc
      = Some (client', ([], Some ("failed to list objects: " +:+ e)))
      /\ service client' = s'.
Proof.
  induction 1 as [s token e s' Hanswer
                 |s token out next s' pages e s'' Hanswer Htrunc Hnext Hne _ IH];
    intros p client acc fuel Hbucket Htoken Hservice Hmore Hfuel;
    subst bucket token s.
  - destruct fuel as [|fuel]; simpl in Hfuel; try lia.
    cbn [listPages]. rewrite Hmore.
    rewrite (NextPage_failed p client e s' Hmore Hanswer).
    by eexists.
  - destruct fuel as [|fuel]; simpl in Hfuel; try lia.
    cbn [listPages]. rewrite Hmore.
    rewrite (NextPage_answered p client out s' Hmore Hanswer).
    destruct (morePages_token out next Htrunc Hnext Hne) as [Htok Hnonempty].
    apply IH; try done.
    + unfold HasMorePages. cbn [firstPage nextToken orb]. by rewrite Htok.
    + lia.
Qed.

End Pages.

(** C6.  [ListObjects] drains the listing: when the store serves the
    pages of the bucket, from the first request on, it returns the
    contents of all pages, concatenated in page order, with no error,
    after one request per page; when a request fails, after any number of
    pages, it returns the error and no objects; and for a bucket whose
    only page is empty it returns no objects and no error.  (The loop runs
    once per page and once more: fuel above the number of pages is
    enough.) *)
Theorem C6_list_drains_all_pages {S : Type} `{Service S}
    (client : Client S) (bucket : string) :
  (forall pages s',
     ServesPages bucket (service client) None pages s' ->
     forall fuel, length pages < fuel ->
       exists client',
         ListObjects fuel client bucket = Some (client', (concat pages, None))
         /\ service client' = s'
         /\ length (calls client') = length (calls client) + length pages)
  /\ (forall pages e s',
        FailsAfter bucket (service client) None pages e s' ->
        forall fuel, length pages < fuel ->
          exists client',
            ListObjects fuel client bucket
            = Some (client', ([], Some ("failed to list objects: " +:+ e)))
            /\ service client' = s')
  /\ (forall out s',
        listObjectsV2 (mkListObjectsV2Input bucket None) (service client) = (s', Ok out) ->
        isLastPage out ->
        Contents out = [] ->
        forall fuel, 1 < fuel ->
          exists client', ListObjects fuel client bucket = Some (client', ([], None))).
Proof.
  split; [|split].
  - intros pages s' Hserves fuel Hfuel. unfold ListObjects.
    by apply (listPages_drains bucket (service client) None pages s' Hserves).
  - intros pages e s' Hfails fuel Hfuel. unfold ListObjects.
    by apply (listPages_fails bucket (service client) None pages e s' Hfails).
  - intros out s' Hanswer Hlast Hempty fuel Hfuel. unfold ListObjects.
    destruct (listPages_drains bucket (service client) None [Contents out] s'
                (serves_last bucket _ _ _ _ Hanswer Hlast)
                (NewListObjectsV2Paginator (mkListObjectsV2Input bucket None))
                client [] fuel) as (client' & Hrun & _); try done.
    exists client'. rewrite Hrun, Hempty. done.
Qed.

(** Three objects in pages of two: both pages are returned, in order.
    The second request fails: the first page is dropped.  An empty
    bucket: no objects, no error. *)
Lemma C6_list_drains_all_pages_witness :
  (exists client',
     ListObjects 3 (newClient healthy) "media"
     = Some (client', ([objA; objB; objC], None))
     /\ length (calls client') = 2)
  /\ (exists client',
        ListObjects 3 (newClient secondFails) "media"
        = Some (client', ([], Some "failed to list objects: connection reset")))
  /\ (exists client',
        ListObjects 2 (newClient emptyBucket) "media" = Some (client', ([], None))).
Proof.
  split; [|split].
  - destruct (proj1 (C6_list_drains_all_pages (newClient healthy) "media")
                [[objA; objB]; [objC]] healthy) with (fuel := 3)
      as (client' & Hrun & _ & Hcalls).
    + refine (serves_more "media" _ None
                (mkListObjectsV2Output [objA; objB] (Some true) (Some "docs/b.txt"))
                "docs/b.txt" healthy _ _ _ _ _ _ _).
      * vm_compute. reflexivity.
      * reflexivity.
      * reflexivity.
      * discriminate.
      * refine (serves_last "media" _ (Some "docs/b.txt")
                  (mkListObjectsV2Output [objC] (Some false) None) _ _ _).
        -- vm_compute. reflexivity.
        -- left. discriminate.
    + simpl. lia.
    + exists client'. split; [exact Hrun | exact Hcalls].
  - destruct (proj1 (proj2 (C6_list_drains_all_pages (newClient secondFails) "media"))
                [[objA; objB]] "connection reset" healthy) with (fuel := 3)
      as (client' & Hrun & _).
    + refine (fails_later "media" _ None
                (mkListObjectsV2Output [objA; objB] (Some true) (Some "docs/b.txt"))
                "docs/b.txt" firstFails _ _ _ _ _ _ _ _).
      * vm_compute. reflexivity.
      * reflexivity.
      * reflexivity.
      * discriminate.
      * apply fails_now. vm_compute. reflexivity.
    + simpl. lia.
    + exists client'. exact Hrun.
  - apply (proj2 (proj2 (C6_list_drains_all_pages (newClient emptyBucket) "media"))
             (mkListObjectsV2Output [] (Some false) None) emptyBucket).
    + vm_compute. reflexivity.
    + left. discriminate.
    + reflexivity.
    + lia.
Defined.

Example list_runs_out_of_fuel :
  ListObjects 2 (newClient healthy) "media" = None.
Proof. vm_compute. reflexivity. Qed.

End ListFacts.
(* ===================================================================== *)
(** * Properties of float64 arithmetic *)
(* ===================================================================== *)

Module Float64Facts.
Import Rounding.

Local Open Scope Z_scope.

Lemma digits2_bounds (p : positive) :
  2 ^ (Z.pos (digits2_pos p) - 1) <= Z.pos p < 2 ^ Z.pos (digits2_pos p).
Proof.
  induction p as [p IH|p IH|]; cbn [digits2_pos]; [| |cbn; lia].
  - rewrite Pos2Z.inj_succ.
    replace (Z.succ (Z.pos (digits2_pos p)) - 1) with (Z.succ (Z.pos (digits2_pos p) - 1)) by lia.
    rewrite !Z.pow_succ_r by lia. lia.
  - rewrite Pos2Z.inj_succ.
    replace (Z.succ (Z.pos (digits2_pos p)) - 1) with (Z.succ (Z.pos (digits2_pos p) - 1)) by lia.
    rewrite !Z.pow_succ_r by lia. lia.
Qed.

Lemma digits2_le (p : positive) (k : Z) :
  Z.pos p < 2 ^ k -> 0 <= k -> Z.pos (digits2_pos p) <= k.
Proof.
  intros Hp Hk. destruct (digits2_bounds p) as [Hlow _].
  destruct (Z.le_gt_cases (Z.pos (digits2_pos p)) k) as [|Hgt]; [done|].
  assert (2 ^ k <= 2 ^ (Z.pos (digits2_pos p) - 1)) by (apply Z.pow_le_mono_r; lia).
  lia.
Qed.

Lemma digits2_gt (p : positive) (k : Z) :
  2 ^ k <= Z.pos p -> 0 <= k -> k < Z.pos (digits2_pos p).
Proof.
  intros Hp Hk. destruct (digits2_bounds p) as [_ Hhigh].
  destruct (Z.lt_ge_cases k (Z.pos (digits2_pos p))) as [|Hge]; [done|].
  assert (2 ^ Z.pos (digits2_pos p) <= 2 ^ k) by (apply Z.pow_le_mono_r; lia).
  lia.
Qed.

Lemma shr_1_m (r : shr_record) : 0 <= shr_m r -> shr_m (shr_1 r) = shr_m r / 2.
Proof.
  destruct r as [m rb sb]. cbn [shr_m shr_1]. intros Hm.
  destruct m as [|[p|p|]|p]; cbn [shr_m]; try lia; try done.
  - rewrite (Pos2Z.inj_xI p). apply Z.div_unique with 1; lia.
  - rewrite (Pos2Z.inj_xO p). apply Z.div_unique with 0; lia.
Qed.

Lemma iter_shr_1_m (n : positive) :
  forall r, 0 <= shr_m r ->
    shr_m (SpecFloat.iter_pos shr_1 n r) = shr_m r / 2 ^ Z.pos n.
Proof.
  induction n as [n IH|n IH|]; intros r Hr; cbn [SpecFloat.iter_pos].
  - assert (0 <= shr_m (shr_1 r)) as H1
      by (rewrite shr_1_m by done; apply Z.div_pos; lia).
    assert (0 <= shr_m (SpecFloat.iter_pos shr_1 n (shr_1 r))) as H2
      by (rewrite IH by done; apply Z.div_pos; lia).
    rewrite IH by done. rewrite IH by done. rewrite shr_1_m by done.
    rewrite !Z.div_div by lia. f_equal.
    rewrite (Pos2Z.inj_xI n).
    replace (2 * Z.pos n + 1) with (1 + Z.pos n + Z.pos n) by lia.
    rewrite !Z.pow_add_r by lia. change (2 ^ 1) with 2. lia.
  - assert (0 <= shr_m (SpecFloat.iter_pos shr_1 n r)) as H2
      by (rewrite IH by done; apply Z.div_pos; lia).
    rewrite IH by done. rewrite IH by done.
    rewrite !Z.div_div by lia. f_equal.
    rewrite (Pos2Z.inj_xO n).
    replace (2 * Z.pos n) with (Z.pos n + Z.pos n) by lia.
    by rewrite Z.pow_add_r by lia.
  - by apply shr_1_m.
Qed.

Lemma shr_record_of_loc_m (m : Z) (l : location) : shr_m (shr_record_of_loc m l) = m.
Proof. by destruct l as [|[]]. Qed.

(** One more digit cut. *)
Lemma cut_shr_1 (r : shr_record) (M n : Z) :
  0 <= n -> cut r M n -> cut (shr_1 r) M (n + 1).
Proof.
  intros Hn. destruct r as [m rb sb]. unfold cut. cbn [shr_m shr_r shr_s shr_1].
  rewrite Z.pow_add_r, Z.pow_1_r by lia.
  assert (0 < 2 ^ n) as Hpow by (apply Z.pow_pos_nonneg; lia).
  set (P := 2 ^ n) in *.
  intros (Hm & Hrem & Ht & Hf & Hs).
  destruct m as [|[p|p|]|p]; cbn [shr_m shr_r shr_s]; try lia.
  - destruct rb, sb; cbn [orb]; repeat split; try done; try lia.
  - rewrite (Pos2Z.inj_xI p) in *.
    destruct rb, sb; cbn [orb]; repeat split; try done; try lia.
  - rewrite (Pos2Z.inj_xO p) in *.
    destruct rb, sb; cbn [orb]; repeat split; try done; try lia.
  - destruct rb, sb; cbn [orb]; repeat split; try done; try lia.
Qed.

Lemma cut_iter (k : positive) :
  forall r M n, 0 <= n -> cut r M n ->
    cut (SpecFloat.iter_pos shr_1 k r) M (n + Z.pos k).
Proof.
  induction k as [k IH|k IH|]; intros r M n Hn Hcut; cbn [SpecFloat.iter_pos].
  - replace (n + Z.pos k~1) with (n + 1 + Z.pos k + Z.pos k) by lia.
    apply IH; [lia|]. apply IH; [lia|]. by apply cut_shr_1.
  - replace (n + Z.pos k~0) with (n + Z.pos k + Z.pos k) by lia.
    apply IH; [lia|]. by apply IH.
  - by apply cut_shr_1.
Qed.

Lemma cut_exact (M : Z) : 0 <= M -> cut (shr_record_of_loc M loc_Exact) M 0.
Proof. intros HM. unfold cut. cbn. repeat split; try done; lia. Qed.

(** The mantissa after the cut to 53 digits. *)
Lemma dropped_quotient (m : positive) :
  0 < Z.pos m / 2 ^ dropped m < 2 ^ 53
  /\ Z.pos m / 2 ^ dropped m <= Z.pos m
  /\ (0 < dropped m -> 2 ^ 52 * 2 ^ dropped m <= Z.pos m).
Proof.
  unfold dropped. pose proof (digits2_bounds m) as [Hlow Hhigh].
  set (d := Z.pos (digits2_pos m)) in *.
  destruct (Z.max_spec 0 (d - 53)) as [[Hd ->]|[Hd ->]].
  - assert (2 ^ 52 * 2 ^ (d - 53) = 2 ^ (d - 1)) as Hpow.
    { rewrite <- Z.pow_add_r by lia. f_equal. lia. }
    assert (0 < 2 ^ (d - 53)) as Hpos by (apply Z.pow_pos_nonneg; lia).
    assert (2 ^ 53 * 2 ^ (d - 53) = 2 ^ d) as Hpow'.
    { rewrite <- Z.pow_add_r by lia. f_equal. lia. }
    split; [split|split].
    + apply Z.div_str_pos. split; [lia|]. nia.
    + apply Z.div_lt_upper_bound; [lia|]. lia.
    + apply Z.div_le_upper_bound; [lia|]. nia.
    + lia.
  - change (2 ^ 0) with 1. rewrite Z.div_1_r.
    assert (2 ^ d <= 2 ^ 53) by (apply Z.pow_le_mono_r; lia).
    repeat split; lia.
Qed.

(** The first step of the rounding: the mantissa is cut to 53 digits. *)
Lemma shr_fexp_cut (m : positive) (e : Z) (l : location) :
  -1000 <= e ->
  exists r,
    shr_fexp 53 1024 (Z.pos m) e l = (r, e + dropped m)
    /\ shr_m r = Z.pos m / 2 ^ dropped m
    /\ (l = loc_Exact -> cut r (Z.pos m) (dropped m)).
Proof.
  intros He. unfold shr_fexp, shr, fexp, emin, dropped. cbn [Zdigits2].
  pose proof (digits2_bounds m) as [Hlow Hhigh].
  set (d := Z.pos (digits2_pos m)) in *.
  replace (Z.sub (Z.max (Z.sub (Z.add d e) 53) (Z.sub (Z.sub 3 1024) 53)) e)
    with (d - 53) by lia.
  destruct (d - 53) as [|k|k] eqn:Hk.
  - exists (shr_record_of_loc (Z.pos m) l).
    rewrite shr_record_of_loc_m. change (Z.max 0 0) with 0.
    split; [by rewrite Z.add_0_r|]. split; [by rewrite Z.div_1_r|].
    intros ->. apply cut_exact. lia.
  - exists (SpecFloat.iter_pos shr_1 k (shr_record_of_loc (Z.pos m) l)).
    replace (Z.max 0 (Z.pos k)) with (Z.pos k) by lia.
    split; [done|]. split.
    + rewrite iter_shr_1_m; rewrite shr_record_of_loc_m; [done|lia].
    + intros ->. change (Z.pos k) with (0 + Z.pos k).
      apply cut_iter; [lia|]. apply cut_exact. lia.
  - exists (shr_record_of_loc (Z.pos m) l).
    rewrite shr_record_of_loc_m. replace (Z.max 0 (Z.neg k)) with 0 by lia.
    split; [by rewrite Z.add_0_r|]. split; [by rewrite Z.div_1_r|].
    intros ->. apply cut_exact. lia.
Qed.

Lemma round_nearest_even_range (m : Z) (l : location) :
  m <= round_nearest_even m l <= m + 1.
Proof.
  destruct l as [|[]]; cbn [round_nearest_even]; try lia.
  destruct (Z.even m); lia.
Qed.

(** Rounding to nearest moves a cut mantissa by half a unit at most. *)
Lemma round_nearest_even_cut (r : shr_record) (M n : Z) :
  cut r M n ->
  2 * Z.abs (round_nearest_even (shr_m r) (loc_of_shr_record r) * 2 ^ n - M) <= 2 ^ n.
Proof.
  destruct r as [m rb sb]. unfold cut. cbn [shr_m shr_r shr_s].
  set (P := 2 ^ n). intros (Hm & Hrem & Ht & Hf & Hs).
  destruct rb, sb; cbn [loc_of_shr_record round_nearest_even];
    try destruct (Z.even m); lia.
Qed.

(** Rounding a positive mantissa below [2^k] gives a finite value of the
    sign asked for; when nothing was dropped before ([loc_Exact]) the
    value is within [2^-53] of the exact one, in proportion. *)
Lemma binary_round_aux_finite (s : bool) (M : positive) (ez : Z) (l : location)
    (k : Z) :
  53 <= k -> Z.pos M < 2 ^ k -> -1000 <= ez -> ez + (k - 53) + 1 <= 971 ->
  exists m e,
    binary_round_aux 53 1024 s (Z.pos M) ez l = S754_finite s m e
    /\ ez <= e <= ez + (k - 53) + 1
    /\ Z.pos m <= 2 ^ 53
    /\ (l = loc_Exact ->
        2 ^ 53 * Z.abs (Z.pos m * 2 ^ (e - ez) - Z.pos M) <= Z.pos M).
Proof.
  intros Hk HM Hez Hmax. unfold binary_round_aux.
  destruct (shr_fexp_cut M ez l Hez) as (r1 & -> & Hm1 & Hcut1).
  destruct (dropped_quotient M) as ((Hq1 & Hq1') & _ & Hbig).
  assert (0 <= dropped M <= k - 53) as Hn1.
  { unfold dropped. pose proof (digits2_le M k HM). lia. }
  pose proof (round_nearest_even_range (shr_m r1) (loc_of_shr_record r1)) as Hround.
  destruct (round_nearest_even (shr_m r1) (loc_of_shr_record r1))
    as [|m2|m2] eqn:Hm2; [lia| |lia].
  destruct (shr_fexp_cut m2 (ez + dropped M) loc_Exact) as (r3 & -> & Hm3 & _); [lia|].
  destruct (dropped_quotient m2) as ((Hq3 & _) & Hq3' & Hbig3).
  assert (0 <= dropped m2 <= 1) as Hn2.
  { unfold dropped. assert (Z.pos m2 < 2 ^ 54) as H54 by lia.
    pose proof (digits2_le m2 54 H54). lia. }
  rewrite Hm3.
  destruct (Z.pos m2 / 2 ^ dropped m2) as [|m3|m3] eqn:Hq; [lia| |lia].
  replace (Z.leb _ (Z.sub 1024 53)) with true by (symmetry; apply Z.leb_le; lia).
  exists m3, (ez + dropped M + dropped m2).
  split; [done|]. split; [lia|]. split; [lia|].
  intros ->. specialize (Hcut1 eq_refl).
  pose proof (round_nearest_even_cut r1 (Z.pos M) (dropped M) Hcut1) as Herr.
  rewrite Hm2 in Herr.
  replace (ez + dropped M + dropped m2 - ez) with (dropped m2 + dropped M) by lia.
  rewrite Z.pow_add_r by lia.
  assert (Z.pos m3 * 2 ^ dropped m2 = Z.pos m2) as Hback.
  { destruct (Z.eq_dec (dropped m2) 0) as [Hzero|Hone].
    - rewrite Hzero in Hq |- *. change (2 ^ 0) with 1 in *.
      rewrite Z.div_1_r in Hq. lia.
    - assert (dropped m2 = 1) as Hone' by lia.
      rewrite Hone' in Hq, Hbig3 |- *. change (2 ^ 1) with 2 in *.
      assert (Z.pos m2 = 2 ^ 53) as Heq by lia.
      rewrite Heq in Hq |- *. change (2 ^ 53 / 2) with (2 ^ 52) in Hq. lia. }
  rewrite Z.mul_assoc, Hback.
  assert (0 < 2 ^ dropped M) as Hpos by (apply Z.pow_pos_nonneg; lia).
  destruct (Z.eq_dec (dropped M) 0) as [Hzero|Hsome].
  - rewrite Hzero in Herr |- *. change (2 ^ 0) with 1 in *. lia.
  - specialize (Hbig ltac:(lia)). lia.
Qed.

Lemma iter_xO_value (p d : positive) :
  Z.pos (Pos.iter xO p d) = Z.pos p * 2 ^ Z.pos d.
Proof.
  induction d as [|d IH] using Pos.peano_ind.
  - cbn [Pos.iter]. lia.
  - rewrite Pos.iter_succ, Pos2Z.inj_xO, IH, Pos2Z.inj_succ, Z.pow_succ_r by lia. lia.
Qed.

Lemma binary_round_finite (s : bool) (p : positive) :
  Z.pos p < 2 ^ 64 ->
  exists m e,
    binary_round 53 1024 s p 0 = S754_finite s m e
    /\ -52 <= e <= 12 /\ Z.pos m <= 2 ^ 53.
Proof.
  intros Hp. unfold binary_round, shl_align, fexp, emin.
  pose proof (digits2_bounds p) as [Hlow Hhigh].
  pose proof (digits2_le p 64 Hp) as Hd.
  set (d := Z.pos (digits2_pos p)) in *.
  replace (Z.sub (Z.max (Z.sub (Z.add d 0) 53) (Z.sub (Z.sub 3 1024) 53)) 0)
    with (d - 53) by lia.
  replace (Z.max (Z.sub (Z.add d 0) 53) (Z.sub (Z.sub 3 1024) 53))
    with (d - 53) by lia.
  destruct (d - 53) as [|k|k] eqn:Hk.
  - destruct (binary_round_aux_finite s p 0 loc_Exact 64)
      as (m & e & -> & He & Hm & _); try lia.
    exists m, e. split; [done|]. lia.
  - destruct (binary_round_aux_finite s p 0 loc_Exact 64)
      as (m & e & -> & He & Hm & _); try lia.
    exists m, e. split; [done|]. lia.
  - destruct (binary_round_aux_finite s (Pos.iter xO p k) (Z.neg k) loc_Exact 53)
      as (m & e & -> & He & Hm & _); try lia.
    + rewrite iter_xO_value.
      assert (2 ^ d * 2 ^ Z.pos k = 2 ^ 53) as Hpow.
      { rewrite <- Z.pow_add_r by lia. f_equal. lia. }
      assert (0 < 2 ^ Z.pos k) by (apply Z.pow_pos_nonneg; lia). nia.
    + exists m, e. split; [done|]. lia.
Qed.

(** [float64] of an integer of 64 bits other than 0 is a finite value
    with the sign of the integer. *)
Lemma ofInt64_finite (z : Z) :
  z <> 0 -> - 2 ^ 63 <= z < 2 ^ 63 ->
  exists m e,
    ofInt64 z = S754_finite (z <? 0) m e
    /\ -52 <= e <= 12 /\ Z.pos m <= 2 ^ 53.
Proof.
  intros Hz Hrange. unfold ofInt64, binary_normalize.
  destruct z as [|p|p]; [done| |].
  - apply binary_round_finite. change (2 ^ 64) with (2 * 2 ^ 63). lia.
  - apply binary_round_finite. change (2 ^ 64) with (2 * 2 ^ 63). lia.
Qed.

Lemma ofInt64_zero : ofInt64 0 = S754_zero false.
Proof. reflexivity. Qed.

Lemma div_eucl_self_shift (m : positive) :
  Z.div_eucl (Z.shiftl (Z.pos m) 53) (Z.pos m) = (2 ^ 53, 0).
Proof.
  destruct (Z.div_eucl (Z.shiftl (Z.pos m) 53) (Z.pos m)) as [q r] eqn:Hqr.
  assert (q = Z.shiftl (Z.pos m) 53 / Z.pos m) as Hq by (unfold Z.div; by rewrite Hqr).
  assert (r = Z.shiftl (Z.pos m) 53 mod Z.pos m) as Hr by (unfold Z.modulo; by rewrite Hqr).
  rewrite Z.shiftl_mul_pow2 in Hq, Hr by lia.
  rewrite (Z.mul_comm (Z.pos m)) in Hq, Hr.
  rewrite Z.div_mul in Hq by lia. rewrite Z.mod_mul in Hr by lia.
  by subst.
Qed.

(** A finite value divided by itself is 1. *)
Lemma fdiv_self (s : bool) (m : positive) (e : Z) :
  fdiv (S754_finite s m e) (S754_finite s m e) = one.
Proof.
  unfold fdiv, SFdiv, SFdiv_core_binary.
  replace (Z.sub (Z.add (Zdigits2 (Z.pos m)) e) (Z.add (Zdigits2 (Z.pos m)) e)) with 0 by lia.
  replace (Z.sub e e) with 0 by lia.
  change (Z.min (fexp 53 1024 0) 0) with (-53).
  change (Z.sub 0 (-53)) with 53. cbv iota.
  rewrite div_eucl_self_shift.
  replace (new_location (Z.pos m) 0) with loc_Exact
    by (unfold new_location; by destruct (Z.even (Z.pos m))).
  by destruct s.
Qed.

(** The quotient of two finite values of moderate exponents is finite. *)
Lemma fdiv_finite (s1 s2 : bool) (m1 m2 : positive) (e1 e2 : Z) :
  -52 <= e1 <= 12 -> -52 <= e2 <= 12 ->
  Z.pos m1 <= 2 ^ 53 -> Z.pos m2 <= 2 ^ 53 ->
  exists m e,
    fdiv (S754_finite s1 m1 e1) (S754_finite s2 m2 e2) = S754_finite (xorb s1 s2) m e
    /\ -200 <= e <= 300 /\ Z.pos m <= 2 ^ 53.
Proof.
  intros He1 He2 Hm1 Hm2. unfold fdiv, SFdiv, SFdiv_core_binary, fexp, emin.
  cbn [Zdigits2].
  pose proof (digits2_bounds m1) as [Hlow1 Hhigh1].
  pose proof (digits2_bounds m2) as [Hlow2 Hhigh2].
  assert (Z.pos m1 < 2 ^ 54) as Hm1' by lia.
  assert (Z.pos m2 < 2 ^ 54) as Hm2' by lia.
  pose proof (digits2_le m1 54 Hm1') as Hd1.
  pose proof (digits2_le m2 54 Hm2') as Hd2.
  set (d1 := Z.pos (digits2_pos m1)) in *.
  set (d2 := Z.pos (digits2_pos m2)) in *.
  replace (Z.min (Z.max (Z.sub (Z.sub (Z.add d1 e1) (Z.add d2 e2)) 53)
                        (Z.sub (Z.sub 3 1024) 53)) (Z.sub e1 e2))
    with (Z.min (d1 - d2 - 53) 0 + (e1 - e2)) by lia.
  set (e' := Z.min (d1 - d2 - 53) 0 + (e1 - e2)).
  replace (Z.sub (Z.sub e1 e2) e') with (Z.max (53 - d1 + d2) 0) by lia.
  set (sh := Z.max (53 - d1 + d2) 0).
  assert (0 <= sh <= 106) as Hsh by lia.
  set (m' := match sh with
             | Z.pos _ => Z.shiftl (Z.pos m1) sh
             | 0 => Z.pos m1
             | Z.neg _ => 0
             end).
  assert (m' = Z.pos m1 * 2 ^ sh) as Hm'.
  { subst m'. destruct sh as [|k|k] eqn:Hk; [lia| |lia].
    by rewrite Z.shiftl_mul_pow2. }
  assert (2 ^ 52 * Z.pos m2 <= m') as Hbig.
  { rewrite Hm'.
    assert (2 ^ (d1 - 1) * 2 ^ sh = 2 ^ (d1 - 1 + sh)) as Hpow
      by (by rewrite Z.pow_add_r by lia).
    assert (2 ^ 52 * 2 ^ d2 = 2 ^ (52 + d2)) as Hpow'
      by (by rewrite Z.pow_add_r by lia).
    assert (2 ^ (52 + d2) <= 2 ^ (d1 - 1 + sh)) by (apply Z.pow_le_mono_r; lia).
    assert (0 < 2 ^ sh) by (apply Z.pow_pos_nonneg; lia).
    nia. }
  assert (m' < 2 ^ 160) as Hsmall.
  { rewrite Hm'.
    assert (2 ^ sh <= 2 ^ 106) by (apply Z.pow_le_mono_r; lia).
    change (2 ^ 160) with (2 ^ 54 * 2 ^ 106). nia. }
  destruct (Z.div_eucl m' (Z.pos m2)) as [q r] eqn:Hqr.
  assert (q = m' / Z.pos m2) as Hq by (unfold Z.div; by rewrite Hqr).
  assert (2 ^ 52 <= q) as Hqlow.
  { rewrite Hq. apply Z.div_le_lower_bound; lia. }
  assert (q < 2 ^ 160) as Hqhigh.
  { rewrite Hq. apply Z.div_lt_upper_bound; [lia|]. nia. }
  destruct q as [|q|q]; [lia| |lia].
  destruct (binary_round_aux_finite (xorb s1 s2) q e' (new_location (Z.pos m2) r) 160)
    as (m & e & -> & He & Hm & _); try lia.
  exists m, e. split; [done|]. lia.
Qed.

(** The product of two finite values of moderate exponents is finite,
    and within [2^-53] of the exact product, in proportion. *)
Lemma fmul_finite (s1 s2 : bool) (m1 m2 : positive) (e1 e2 : Z) :
  -400 <= e1 <= 400 -> -400 <= e2 <= 400 ->
  Z.pos m1 <= 2 ^ 53 -> Z.pos m2 <= 2 ^ 53 ->
  exists m e,
    fmul (S754_finite s1 m1 e1) (S754_finite s2 m2 e2) = S754_finite (xorb s1 s2) m e
    /\ e1 + e2 <= e
    /\ 2 ^ 53 * Z.abs (Z.pos m * 2 ^ (e - (e1 + e2)) - Z.pos m1 * Z.pos m2)
       <= Z.pos m1 * Z.pos m2.
Proof.
  intros He1 He2 Hm1 Hm2. unfold fmul, SFmul.
  destruct (binary_round_aux_finite (xorb s1 s2) (m1 * m2) (e1 + e2) loc_Exact 107)
    as (m & e & Hround & He & Hm & Herr); try lia.
  - rewrite Pos2Z.inj_mul. change (2 ^ 107) with (2 * (2 ^ 53 * 2 ^ 53)). nia.
  - exists m, e. split; [exact Hround|]. split; [lia|].
    rewrite <- Pos2Z.inj_mul. by apply Herr.
Qed.


Local Close Scope Z_scope.

(** The value of a finite float64, at a smaller exponent. *)
Lemma toQ_scaled (s : bool) (m : positive) (e e0 : Z) :
  (e0 <= e)%Z ->
  (toQ (S754_finite s m e)
   == (if s then - inject_Z (Z.pos m * 2 ^ (e - e0))
       else inject_Z (Z.pos m * 2 ^ (e - e0))) * 2 ^ e0)%Q.
Proof.
  intros He. unfold toQ.
  replace e with ((e - e0) + e0)%Z at 1 by lia.
  rewrite Qpower_plus by done.
  destruct s; rewrite inject_Z_mult, Zpower_Qpower by lia;
    change (inject_Z 2) with 2%Q; ring.
Qed.

(** Two values of one sign, on one scale. *)
Lemma scaled_tenth (s : bool) (c : Q) (X Y : Z) :
  (0 < c)%Q -> (0 <= Y)%Z ->
  (2 ^ 51 * Z.abs (10 * X - Y) <= Y)%Z ->
  (Qabs (10 * ((if s then - inject_Z X else inject_Z X) * c)
         - (if s then - inject_Z Y else inject_Z Y) * c) * inject_Z (2 ^ 51)
   <= Qabs ((if s then - inject_Z Y else inject_Z Y) * c))%Q.
Proof.
  intros Hc HY Hbound.
  assert (Qabs c == c)%Q as Habs by (apply Qabs_pos; by apply Qlt_le_weak).
  assert (forall z, Qabs (inject_Z z) == inject_Z (Z.abs z))%Q as Hinj by done.
  assert (Qabs (10 * ((if s then - inject_Z X else inject_Z X) * c)
                - (if s then - inject_Z Y else inject_Z Y) * c)
          == inject_Z (Z.abs (10 * X - Y)) * c)%Q as ->.
  { transitivity (Qabs (inject_Z (10 * X - Y) * c)).
    - destruct s.
      + rewrite <- Qabs_opp. apply Qabs_wd.
        unfold Zminus. rewrite inject_Z_plus, inject_Z_mult, inject_Z_opp.
        change (inject_Z 10) with 10%Q. ring.
      + apply Qabs_wd.
        unfold Zminus. rewrite inject_Z_plus, inject_Z_mult, inject_Z_opp.
        change (inject_Z 10) with 10%Q. ring.
    - by rewrite Qabs_Qmult, Habs, Hinj. }
  assert (Qabs ((if s then - inject_Z Y else inject_Z Y) * c) == inject_Z Y * c)%Q
    as ->.
  { rewrite Qabs_Qmult, Habs. apply Qmult_comp; [|done].
    destruct s; [rewrite Qabs_opp|]; rewrite Hinj; by rewrite Z.abs_eq. }
  assert (inject_Z (Z.abs (10 * X - Y)) * c * inject_Z (2 ^ 51)
          == inject_Z (2 ^ 51 * Z.abs (10 * X - Y)) * c)%Q as ->
    by (rewrite inject_Z_mult; ring).
  apply Qmult_le_compat_r; [|by apply Qlt_le_weak].
  by rewrite <- Zle_Qle.
Qed.

(** Times 10 and times 100: the first product is a tenth of the second,
    up to the rounding of each. *)
Lemma tenth_up_to_rounding (s : bool) (m : positive) (e : Z) :
  (-200 <= e <= 300)%Z -> (Z.pos m <= 2 ^ 53)%Z ->
  let w := fmul (S754_finite s m e) (ofInt64 100) in
  let r := fmul (S754_finite s m e) (ofInt64 10) in
  isFinite w = true /\ isFinite r = true
  /\ (Qabs (10 * toQ r - toQ w) * inject_Z (2 ^ 51) <= Qabs (toQ w))%Q.
Proof.
  intros He Hm.
  change (ofInt64 100) with (S754_finite false 7036874417766400 (-46)).
  change (ofInt64 10) with (S754_finite false 5629499534213120 (-49)).
  destruct (fmul_finite s false m 7036874417766400 e (-46))
    as (mw & ew & Hw & Hew & Herrw); try lia.
  destruct (fmul_finite s false m 5629499534213120 e (-49))
    as (mr & er & Hr & Her & Herrr); try lia.
  cbv zeta. rewrite Hw, Hr. split; [done|]. split; [done|].
  rewrite (toQ_scaled _ mw ew (e + -49)) by lia.
  rewrite (toQ_scaled _ mr er (e + -49)) by lia.
  set (W := (Z.pos mw * 2 ^ (ew - (e + -46)))%Z) in *.
  set (R := (Z.pos mr * 2 ^ (er - (e + -49)))%Z) in *.
  assert (Z.pos mw * 2 ^ (ew - (e + -49)) = 8 * W)%Z as ->.
  { subst W. replace (ew - (e + -49))%Z with (3 + (ew - (e + -46)))%Z by lia.
    rewrite Z.pow_add_r by lia. change (2 ^ 3)%Z with 8%Z. lia. }
  apply scaled_tenth.
  - by apply Qpower_0_lt.
  - assert (0 <= W)%Z by (subst W; apply Z.mul_nonneg_nonneg; [lia|apply Z.pow_nonneg; lia]).
    lia.
  - lia.
Qed.

End Float64Facts.

(* ===================================================================== *)
(** * Properties of the progress wrappers *)
(* ===================================================================== *)

Module ProgressFacts.
Import S3 R2 MemStore StoreFixtures.

Local Open Scope list_scope.

(** Below 2^63 the counter does not wrap. *)
Lemma add64_in_range (a b : Z) : in_int64 (a + b) -> add64 a b = (a + b)%Z.
Proof.
  unfold in_int64, add64, wrap64. intros Hrange.
  rewrite Z.mod_small; lia.
Qed.

Example add64_wraps : add64 (2 ^ 63 - 1) 1 = (- 2 ^ 63)%Z.
Proof. reflexivity. Qed.

(** The counter is an int64, whatever is added. *)
Lemma add64_int64 (a b : Z) : in_int64 (add64 a b).
Proof.
  unfold in_int64, add64, wrap64.
  pose proof (Z.mod_pos_bound (a + b + 2 ^ 63) (2 ^ 64)). lia.
Qed.

(** The quotient of two counts that are not zero is a finite number. *)
Lemma quotient_finite (t total : Z) :
  in_int64 t -> t <> 0%Z -> (0 < total < 2 ^ 63)%Z ->
  exists m e,
    fdiv (ofInt64 t) (ofInt64 total) = S754_finite (t <? 0)%Z m e
    /\ (-200 <= e <= 300)%Z /\ (Z.pos m <= 2 ^ 53)%Z.
Proof.
  intros Ht Hzero Htotal.
  destruct (Float64Facts.ofInt64_finite t Hzero Ht) as (m1 & e1 & -> & He1 & Hm1).
  destruct (Float64Facts.ofInt64_finite total) as (m2 & e2 & -> & He2 & Hm2); [lia|lia|].
  destruct (Float64Facts.fdiv_finite (t <? 0)%Z (total <? 0)%Z m1 m2 e1 e2)
    as (m & e & -> & He & Hm); try done.
  exists m, e. split; [|done].
  replace (total <? 0)%Z with false by (symmetry; apply Z.ltb_ge; lia).
  by destruct (t <? 0)%Z.
Qed.

(** A count divided by itself is 1. *)
Lemma quotient_of_total (total : Z) :
  (0 < total < 2 ^ 63)%Z -> fdiv (ofInt64 total) (ofInt64 total) = one.
Proof.
  intros Htotal.
  destruct (Float64Facts.ofInt64_finite total) as (m & e & -> & _); [lia|lia|].
  apply Float64Facts.fdiv_self.
Qed.

(** Zero divided by a count is zero. *)
Lemma quotient_of_zero (total : Z) :
  (0 < total < 2 ^ 63)%Z -> fdiv (ofInt64 0) (ofInt64 total) = ofInt64 0.
Proof.
  intros Htotal.
  destruct (Float64Facts.ofInt64_finite total) as (m & e & -> & _); [lia|lia|].
  replace (total <? 0)%Z with false by (symmetry; apply Z.ltb_ge; lia).
  reflexivity.
Qed.

(** With a total of zero the division is a division by zero: the
    percentage is an infinity or NaN, never a number. *)
Lemma percentage_of_zero_total (t : Z) :
  in_int64 t ->
  fmul (fdiv (ofInt64 t) (ofInt64 0)) (ofInt64 100)
  = if (t =? 0)%Z then NaN else if (t <? 0)%Z then NegInf else PosInf.
Proof.
  intros Ht. destruct (Z.eqb_spec t 0) as [->|Hzero]; [reflexivity|].
  destruct (Float64Facts.ofInt64_finite t Hzero Ht) as (m & e & -> & _).
  by destruct (t <? 0)%Z.
Qed.

(** A write that succeeds prints a progress line, whatever the total. *)
Lemma Write_prints (inner : string -> Z * option string) (pw : progressWriter)
    (p : string) (n : Z) :
  inner p = (n, None) ->
  Write inner pw p
  = (mkProgressWriter (pw_total pw) (add64 (pw_transferred pw) n), (n, None),
     Some (mkProgressLine (add64 (pw_transferred pw) n) (pw_total pw)
             (fmul (fdiv (ofInt64 (add64 (pw_transferred pw) n)) (ofInt64 (pw_total pw)))
                   (ofInt64 100)))).
Proof. intros Hinner. unfold Write. by rewrite Hinner. Qed.

(** C1, as the specification states it, fails: float64 arithmetic rounds.
    At 7 bytes of 9 the download wrapper computes 77.77777777777779 (the
    float64 [5473124547151645 * 2^-46]) and the upload wrapper
    7.777777777777778 ([8756999275442631 * 2^-50]), which is neither the
    float64 quotient of the former by 10 ([8756999275442632 * 2^-50]) nor
    its tenth as a number; and the texts printed are [77.78] and [7.78]. *)
Lemma C1_counterexample :
  (Write writeAll (mkProgressWriter 9 0) "7 bytes").2
  = Some (mkProgressLine 7 9 (S754_finite false 5473124547151645 (-46)))
  /\ (Read (7%Z, None) (mkProgressReader 9 0)).2
     = Some (mkProgressLine 7 9 (S754_finite false 8756999275442631 (-50)))
  /\ fdiv (S754_finite false 5473124547151645 (-46)) (ofInt64 10)
     = S754_finite false 8756999275442632 (-50)
  /\ ~ (toQ (S754_finite false 8756999275442631 (-50))
        == toQ (S754_finite false 5473124547151645 (-46)) / 10)%Q
  /\ (renderProgress <$> (Write writeAll (mkProgressWriter 9 0) "7 bytes").2)
     = Some (Fmt.CR +:+ "7 / 9 (77.78%)")
  /\ (renderProgress <$> (Read (7%Z, None) (mkProgressReader 9 0)).2)
     = Some (Fmt.CR +:+ "7 / 9 (7.78%)").
Proof.
  split; [by vm_compute|]. split; [by vm_compute|]. split; [by vm_compute|].
  split; [|split; by vm_compute].
  unfold Qeq. vm_compute. discriminate.
Qed.

(** C1, amended.  After the same update of the count, the download
    wrapper computes float64(transferred)/float64(total)*100 and the
    upload wrapper float64(transferred)/float64(total)*10, from one
    float64 quotient.  For a total above zero both are finite numbers,
    and the upload value is one tenth of the download value up to the
    rounding of the two products: ten times the former differs from the
    latter by at most the [2^-51]th part of the latter.  It is the tenth
    exactly when the count is the total (10 and 100) and when the count
    is zero (0 and 0). *)
Theorem C1_upload_percentage_is_a_tenth
    (inner : string -> Z * option string) (p : string)
    (total transferred n : Z) :
  (0 < total < 2 ^ 63)%Z ->
  inner p = (n, None) ->
  let t := add64 transferred n in
  let q := fdiv (ofInt64 t) (ofInt64 total) in
  let w := fmul q (ofInt64 100) in
  let r := fmul q (ofInt64 10) in
  (Write inner (mkProgressWriter total transferred) p).2
  = Some (mkProgressLine t total w)
  /\ (Read (n, None) (mkProgressReader total transferred)).2
     = Some (mkProgressLine t total r)
  /\ isFinite w = true /\ isFinite r = true
  /\ (Qabs (10 * toQ r - toQ w) * inject_Z (2 ^ 51) <= Qabs (toQ w))%Q
  /\ (t = total -> w = ofInt64 100 /\ r = ofInt64 10)
  /\ (t = 0%Z -> w = ofInt64 0 /\ r = ofInt64 0).
Proof.
  intros Htotal Hinner t q w r.
  split; [by rewrite (Write_prints inner _ p n Hinner)|].
  split; [reflexivity|].
  assert (isFinite w = true /\ isFinite r = true
          /\ (Qabs (10 * toQ r - toQ w) * inject_Z (2 ^ 51) <= Qabs (toQ w))%Q)
    as (Hw & Hr & Hbound).
  { destruct (Z.eq_dec t 0%Z) as [Hzero|Hsome].
    - subst w r q. rewrite Hzero, (quotient_of_zero total Htotal).
      repeat split. by vm_compute.
    - destruct (quotient_finite t total (add64_int64 transferred n) Hsome Htotal)
        as (m & e & Hq & He & Hm).
      subst w r q. rewrite Hq.
      by apply Float64Facts.tenth_up_to_rounding. }
  split; [done|]. split; [done|]. split; [done|]. split.
  - intros Hdone. subst w r q. rewrite Hdone, (quotient_of_total total Htotal).
    split; reflexivity.
  - intros Hzero. subst w r q. rewrite Hzero, (quotient_of_zero total Htotal).
    split; reflexivity.
Qed.

(** At 7 bytes of 9 the two values are those of the counterexample, within
    the bound; and at 9 of 9 they are 100 and 10. *)
Lemma C1_upload_percentage_is_a_tenth_witness :
  ((Write writeAll (mkProgressWriter 9 0) "7 bytes").2
   = Some (mkProgressLine 7 9 (S754_finite false 5473124547151645 (-46)))
   /\ (Read (7%Z, None) (mkProgressReader 9 0)).2
      = Some (mkProgressLine 7 9 (S754_finite false 8756999275442631 (-50)))
   /\ (Qabs (10 * toQ (S754_finite false 8756999275442631 (-50))
             - toQ (S754_finite false 5473124547151645 (-46)))
       * inject_Z (2 ^ 51)
       <= Qabs (toQ (S754_finite false 5473124547151645 (-46))))%Q)
  /\ (Write writeAll (mkProgressWriter 9 7) "ab").2
     = Some (mkProgressLine 9 9 (ofInt64 100))
  /\ (Read (2%Z, None) (mkProgressReader 9 7)).2
     = Some (mkProgressLine 9 9 (ofInt64 10)).
Proof.
  split.
  - destruct (C1_upload_percentage_is_a_tenth writeAll "7 bytes" 9 0 7)
      as (Hw & Hr & _ & _ & Hbound & _).
    + lia.
    + reflexivity.
    + split; [exact Hw|]. split; [exact Hr|exact Hbound].
  - destruct (C1_upload_percentage_is_a_tenth writeAll "ab" 9 7 2)
      as (Hw & Hr & _ & _ & _ & Hdone & _).
    + lia.
    + reflexivity.
    + destruct (Hdone eq_refl) as [Hw100 Hr10].
      split; [exact (eq_trans Hw (f_equal (fun x => Some (mkProgressLine 9 9 x)) Hw100))|].
      exact (eq_trans Hr (f_equal (fun x => Some (mkProgressLine 9 9 x)) Hr10)).
Defined.

Example progress_after_50_of_200 :
  (renderProgress <$> (Write writeAll (mkProgressWriter 200 30) "twenty..characters..").2)
  = Some (Fmt.CR +:+ "50 / 200 (25.00%)")
  /\ (renderProgress <$> (Read (20%Z, None) (mkProgressReader 200 30)).2)
     = Some (Fmt.CR +:+ "50 / 200 (2.50%)").
Proof. by vm_compute. Qed.

(** [%.2f] rounds the exact value of the float64: 23 of 160 is
    14.374999999999998 as a float64 percentage, and prints as 14.37. *)
Example formatFixed2_examples :
  Fmt.formatFixed2 (fdiv (ofInt64 1) (ofInt64 3)) = "0.33"
  /\ Fmt.formatFixed2 (fdiv (ofInt64 1) (ofInt64 8)) = "0.12"
  /\ Fmt.formatFixed2 (fdiv (ofInt64 3) (ofInt64 8)) = "0.38"
  /\ Fmt.formatFixed2 (fdiv (ofInt64 (-5)) (ofInt64 2)) = "-2.50"
  /\ Fmt.formatFixed2 (ofInt64 100) = "100.00"
  /\ Fmt.formatFixed2 (fmul (fdiv (ofInt64 23) (ofInt64 160)) (ofInt64 100)) = "14.37"
  /\ Fmt.formatFixed2 PosInf = "+Inf"
  /\ Fmt.formatFixed2 NaN = "NaN".
Proof. by vm_compute. Qed.

(** float64 of an integer rounds above 2^53. *)
Example ofInt64_rounds :
  ofInt64 (2 ^ 53 + 1) = ofInt64 (2 ^ 53)
  /\ ofInt64 (2 ^ 63 - 1) = ofInt64 (2 ^ 63).
Proof. by vm_compute. Qed.

(** With an unknown total every write that succeeds prints a line whose
    percentage is the result of a division by zero. *)
Lemma Write_unknown_total (inner : string -> Z * option string) (p : string)
    (transferred n : Z) :
  inner p = (n, None) ->
  (Write inner (mkProgressWriter 0 transferred) p).2
  = Some (mkProgressLine (add64 transferred n) 0
            (if (add64 transferred n =? 0)%Z then NaN
             else if (add64 transferred n <? 0)%Z then NegInf else PosInf)).
Proof.
  intros Hinner. rewrite (Write_prints inner _ p n Hinner).
  cbn [snd pw_total pw_transferred]. f_equal. f_equal.
  apply percentage_of_zero_total, add64_int64.
Qed.

(** C2 fails on the code.  The response for [docs/a.txt] (5 bytes) carries
    no content length: [DownloadObject] prints the warning that the
    percentage will not be shown, and then [Write] divides the 5 bytes
    written by the total 0 and prints the outcome as the percentage. *)
Theorem C2_percentage_printed_without_total :
  DownloadObject (fun _ => None) writeAll (newClient noLength)
    "media" "docs/a.txt" "a.txt"
  = (mkClient noLength [GetCall (mkGetObjectInput "media" "docs/a.txt")], None,
     [Fmt.Println contentLengthWarning;
      Fmt.CR +:+ "5 / 0 (+Inf%)";
      Fmt.LF])
  /\ (Write writeAll (mkProgressWriter 0 0) "hello").2
     = Some (mkProgressLine 5 0 (fmul (fdiv (ofInt64 5) (ofInt64 0)) (ofInt64 100)))
  /\ fdiv (ofInt64 5) (ofInt64 0) = PosInf.
Proof. vm_compute. done. Qed.

Example download_with_content_length :
  (DownloadObject (fun _ => None) writeAll (newClient healthy)
     "media" "docs/a.txt" "a.txt").2
  = [Fmt.CR +:+ "5 / 5 (100.00%)"; Fmt.LF].
Proof. vm_compute. done. Qed.

End ProgressFacts.

(* ===================================================================== *)
(** * Properties of the command handlers *)
(* ===================================================================== *)

Module MainFacts.
Import S3 R2 Main Paths MemStore StoreFixtures.

#[local] Arguments Ascii.eqb : simpl never.
Local Open Scope list_scope.

Example Clean_dot_slash : Filepath.Clean "./docs_a.txt" = "docs_a.txt".
Proof. reflexivity. Qed.

Example Clean_parent : Filepath.Clean "a/b/../../../c//d/." = "../c/d".
Proof. reflexivity. Qed.

Example Clean_rooted : Filepath.Clean "/../a/./b/" = "/a/b".
Proof. reflexivity. Qed.

Example Join_home :
  Filepath.Join ["/home/u"; "/.local/cfg/cfr2.toml"]
  = "/home/u/.local/cfg/cfr2.toml".
Proof. reflexivity. Qed.

Example Base_key : Filepath.Base "docs/2024/a.txt" = "a.txt".
Proof. reflexivity. Qed.

Example Base_trailing : Filepath.Base "docs/dir///" = "dir".
Proof. reflexivity. Qed.

Example Base_slashes : Filepath.Base "//" = "/".
Proof. reflexivity. Qed.

Example ReplaceAll_key :
  Strings.ReplaceAll "docs/2024/a.txt" "/" "_" = "docs_2024_a.txt".
Proof. reflexivity. Qed.

Example ReplaceAll_word : Strings.ReplaceAll "aaab" "aa" "x" = "xab".
Proof. reflexivity. Qed.



Lemma rev_app_append (cur acc s : string) :
  String.rev_app cur acc +:+ s = String.rev_app cur (acc +:+ s).
Proof.
  revert acc. induction cur as [|c cur IH]; intros acc; [done|].
  cbn [String.rev_app]. by rewrite IH.
Qed.

Lemma rev_append_char (cur : string) (c : ascii) (s : string) :
  String.rev (String c cur) +:+ s = String.rev cur +:+ String c s.
Proof. unfold String.rev. cbn [String.rev_app]. by rewrite !rev_app_append. Qed.

(** A name without separator is one path element. *)
Lemma splitFrom_no_slash (s cur : string) :
  Strings.contains "/" s = false ->
  Filepath.splitFrom s cur = [String.rev cur +:+ s].
Proof.
  revert cur. induction s as [|c s IH]; intros cur.
  - intros _. cbn [Filepath.splitFrom].
    unfold String.rev. by rewrite rev_app_append.
  - cbn [Strings.contains Filepath.splitFrom].
    destruct (Ascii.eqb c "/"); [done|]. cbn [orb]. intros Hs.
    rewrite (IH _ Hs). by rewrite rev_append_char.
Qed.


(** Strings and paths. *)
Lemma append_assoc (a b c : string) : (a +:+ b) +:+ c = a +:+ (b +:+ c).
Proof.
  induction a as [|x a IH]; [done|].
  change (String x ((a +:+ b) +:+ c) = String x (a +:+ (b +:+ c))). by f_equal.
Qed.

(** The elements of a name without separator followed by a separator. *)
Lemma splitFrom_element (e rest cur : string) :
  Strings.contains "/" e = false ->
  Filepath.splitFrom (e +:+ String "/" rest) cur
  = (String.rev cur +:+ e) :: Filepath.splitFrom rest "".
Proof.
  revert cur. induction e as [|c e IH]; intros cur; simpl.
  - intros _. try rewrite Ascii.eqb_refl.
    unfold String.rev. by rewrite rev_app_append.
  - destruct (Ascii.eqb c "/"); simpl; [done|]. intros He.
    rewrite (IH _ He). by rewrite rev_append_char.
Qed.

Lemma elements_Join (es : list string) (rest : string) :
  Forall plainElement es ->
  Filepath.splitFrom (Strings.Join es "/" +:+ String "/" rest) ""
  = match es with
    | [] => "" :: Filepath.splitFrom rest ""
    | _ => es ++ Filepath.splitFrom rest ""
    end.
Proof.
  induction es as [|e [|e' es] IH]; intros Hplain.
  - cbn [Strings.Join String.append Filepath.splitFrom].
    by change (Ascii.eqb "/" "/") with true.
  - cbn [Strings.Join]. apply Forall_inv in Hplain as [Hslash _].
    by rewrite (splitFrom_element e rest "" Hslash).
  - change (Strings.Join (e :: e' :: es) "/")
      with (e +:+ "/" +:+ Strings.Join (e' :: es) "/").
    rewrite !append_assoc.
    change ("/" +:+ Strings.Join (e' :: es) "/" +:+ String "/" rest)
      with (String "/" (Strings.Join (e' :: es) "/" +:+ String "/" rest)).
    inversion Hplain as [|? ? [Hslash _] Hrest]; subst.
    rewrite (splitFrom_element e _ "" Hslash).
    rewrite (IH Hrest). done.
Qed.

Lemma elements_Join_last (es : list string) :
  Forall plainElement es -> es <> [] ->
  Filepath.splitFrom (Strings.Join es "/") "" = es.
Proof.
  induction es as [|e [|e' es] IH]; intros Hplain Hne; [done| |].
  - cbn [Strings.Join]. apply Forall_inv in Hplain as [Hslash _].
    by rewrite (splitFrom_no_slash e "" Hslash).
  - change (Strings.Join (e :: e' :: es) "/")
      with (e +:+ String "/" (Strings.Join (e' :: es) "/")).
    inversion Hplain as [|? ? [Hslash _] Hrest]; subst.
    rewrite (splitFrom_element e _ "" Hslash).
    by rewrite (IH Hrest).
Qed.

(** [Clean] keeps plain elements. *)
Lemma cleanElems_plain (rooted : bool) (es more : list string)
    (dots : nat) (stack : list string) :
  Forall plainElement es ->
  Filepath.cleanElems rooted (es ++ more) dots stack
  = Filepath.cleanElems rooted more dots (rev es ++ stack).
Proof.
  revert stack. induction es as [|e es IH]; intros stack Hplain; [done|].
  inversion Hplain as [|? ? (_ & Hempty & Hdot & Hdots) Hrest]; subst.
  apply String.eqb_neq in Hempty, Hdot, Hdots.
  cbn [app Filepath.cleanElems]. rewrite Hempty, Hdot, Hdots. cbn [orb].
  rewrite (IH _ Hrest). cbn [rev]. by rewrite <- app_assoc.
Qed.

Lemma Join_app (xs ys : list string) :
  xs <> [] -> ys <> [] ->
  Strings.Join (xs ++ ys) "/" = Strings.Join xs "/" +:+ "/" +:+ Strings.Join ys "/".
Proof.
  induction xs as [|x [|x' xs] IH]; intros Hxs Hys; [done| |].
  - destruct ys; [done|]. reflexivity.
  - change (Strings.Join ((x :: x' :: xs) ++ ys) "/")
      with (x +:+ "/" +:+ Strings.Join ((x' :: xs) ++ ys) "/").
    rewrite IH; [|done|done].
    change (Strings.Join (x :: x' :: xs) "/")
      with (x +:+ "/" +:+ Strings.Join (x' :: xs) "/").
    by rewrite !append_assoc.
Qed.


(** The last element of a key. *)
Lemma append_nil_r (s : string) : s +:+ "" = s.
Proof.
  induction s as [|c s IH]; [done|].
  change (String c (s +:+ "") = String c s). by f_equal.
Qed.

Lemma rev_cons (c : ascii) (s : string) :
  String.rev (String c s) = String.rev s +:+ String c "".
Proof. rewrite <- (append_nil_r (String.rev (String c s))). apply rev_append_char. Qed.

Lemma rev_append (a b : string) :
  String.rev (a +:+ b) = String.rev b +:+ String.rev a.
Proof.
  induction a as [|c a IH].
  - cbn [String.append]. change (String.rev "") with "". by rewrite append_nil_r.
  - change (String c a +:+ b) with (String c (a +:+ b)).
    by rewrite !rev_cons, IH, append_assoc.
Qed.

Lemma rev_involutive (s : string) : String.rev (String.rev s) = s.
Proof.
  induction s as [|c s IH]; [done|].
  rewrite rev_cons, rev_append, IH. reflexivity.
Qed.










Example output_path_in_directory :
  resolveOutputPath (String.eqb "/tmp") "/tmp" "docs/a.txt" = "/tmp/a.txt".
Proof. reflexivity. Qed.

Example output_path_of_dots :
  resolveOutputPath (fun _ => false) "" ".." = ".."
  /\ resolveOutputPath (fun _ => false) "" "a/../b" = "a_.._b".
Proof. split; reflexivity. Qed.

(** C9.  The variant of presign without expiry is the variant with expiry
    at 24 hours (in nanoseconds, the unit of [time.Duration]); the expiry
    flag of the command defaults to 24, and a command line without it
    asks for the URL the variant without expiry returns. *)
Theorem C9_presign_default_expiry {S : Type} `{Service S}
    (client : Client S) (cfg : Config.R2Config) (bucket key : string) :
  GeneratePresignedURL client bucket key
  = GeneratePresignedURLWithExpiry client bucket key (24 * 3600 * 1000000000)%Z
  /\ (forall b k,
        handlePresignCommand client cfg (mkPresignFlags b k None)
        = handlePresignCommand client cfg (mkPresignFlags b k (Some 24%Z)))
  /\ (bucket <> "" -> key <> "" ->
      let announce :=
        Fmt.Println ("Generating presigned URL for '" +:+ key +:+ "' in bucket '"
                     +:+ bucket +:+ "' with 24-hour expiry...") in
      handlePresignCommand client cfg (mkPresignFlags (Some bucket) (Some key) None)
      = match GeneratePresignedURL client bucket key with
        | Ok url => mkOutcome [announce; Fmt.Println ("Presigned URL: " +:+ url)] None
        | Err err =>
            mkOutcome [announce]
              (Some ("Failed to generate presigned URL for object '" +:+ key
                     +:+ "': " +:+ err))
        end).
Proof.
  split; [|split].
  - reflexivity.
  - reflexivity.
  - intros Hbucket Hkey announce.
    apply String.eqb_neq in Hbucket, Hkey.
    unfold handlePresignCommand, GeneratePresignedURL.
    cbn [from_option id presign_bucket presign_key presign_expiry].
    rewrite Hbucket, Hkey.
    change (mul64 24 Hour) with (24 * Hour)%Z.
    reflexivity.
Qed.

Lemma C9_presign_default_expiry_witness :
  handlePresignCommand (newClient healthy) (Config.mkR2Config "a" "k" "s" "media")
    (mkPresignFlags None (Some "docs/a.txt") None)
  = mkOutcome
      [Fmt.Println "Generating presigned URL for 'docs/a.txt' in bucket 'media' with 24-hour expiry...";
       Fmt.Println "Presigned URL: https://r2.example/media/docs/a.txt?X-Amz-Expires=86400"]
      None.
Proof.
  refine (eq_trans _ (eq_trans
            (proj2 (proj2 (C9_presign_default_expiry (newClient healthy)
                             (Config.mkR2Config "a" "k" "s" "media")
                             "media" "docs/a.txt")) _ _) _)).
  - reflexivity.
  - discriminate.
  - discriminate.
  - vm_compute. reflexivity.
Defined.

End MainFacts.

(* ===================================================================== *)
(** * Further properties of rename, delete and list *)
(* ===================================================================== *)

Module StoreOpsFacts.
Import S3 StoreLaws Listing R2 MemStore StoreFixtures.

Local Open Scope list_scope.

Local Abbreviation copyInputOf bucket old new :=
  (mkCopyObjectInput bucket (bucket +:+ "/" +:+ old) new).

Section Operations.
Context {S : Type} `{Service S}.

(** The outcome of [RenameObject], by the answers of the store. *)
Lemma RenameObject_cases (client : Client S) (bucket old new : string) :
  (exists s1 e,
     copyObject (copyInputOf bucket old new) (service client) = (s1, Some e)
     /\ RenameObject client bucket old new
        = (mkClient s1 (calls client ++ [CopyCall (copyInputOf bucket old new)]),
           Some (copyFailed old new bucket e)))
  \/ (exists s1 s2 e,
        copyObject (copyInputOf bucket old new) (service client) = (s1, None)
        /\ deleteObject (mkDeleteObjectInput bucket old) s1 = (s2, Some e)
        /\ RenameObject client bucket old new
           = (mkClient s2 (calls client ++ [CopyCall (copyInputOf bucket old new);
                                            DeleteCall (mkDeleteObjectInput bucket old)]),
              Some (copiedNotDeleted old bucket (deleteFailed old bucket e))))
  \/ (exists s1 s2,
        copyObject (copyInputOf bucket old new) (service client) = (s1, None)
        /\ deleteObject (mkDeleteObjectInput bucket old) s1 = (s2, None)
        /\ RenameObject client bucket old new
           = (mkClient s2 (calls client ++ [CopyCall (copyInputOf bucket old new);
                                            DeleteCall (mkDeleteObjectInput bucket old)]),
              None)).
Proof.
  destruct (copyObject (copyInputOf bucket old new) (service client))
    as [s1 [e|]] eqn:Hcopy.
  - left. exists s1, e. split; [done|].
    exact (RenameFacts.RenameObject_copy_fails client bucket old new s1 e Hcopy).
  - destruct (deleteObject (mkDeleteObjectInput bucket old) s1) as [s2 [e|]] eqn:Hdel.
    + right; left. exists s1, s2, e. split; [done|]. split; [done|].
      exact (RenameFacts.RenameObject_delete_fails client bucket old new s1 s2 e Hcopy Hdel).
    + right; right. exists s1, s2. split; [done|]. split; [done|].
      exact (RenameFacts.RenameObject_succeeds client bucket old new s1 s2 Hcopy Hdel).
Qed.

(** The outcome of [DeleteObject], by the answer of the store. *)
Lemma DeleteObject_cases (client : Client S) (bucket key : string) :
  (exists s1 e,
     deleteObject (mkDeleteObjectInput bucket key) (service client) = (s1, Some e)
     /\ R2.DeleteObject client bucket key
        = (mkClient s1 (calls client ++ [DeleteCall (mkDeleteObjectInput bucket key)]),
           Some (deleteFailed key bucket e)))
  \/ (exists s1,
        deleteObject (mkDeleteObjectInput bucket key) (service client) = (s1, None)
        /\ R2.DeleteObject client bucket key
           = (mkClient s1 (calls client ++ [DeleteCall (mkDeleteObjectInput bucket key)]),
              None)).
Proof.
  unfold R2.DeleteObject, S3.DeleteObject.
  destruct (deleteObject (mkDeleteObjectInput bucket key) (service client))
    as [s1 [e|]] eqn:Hdel.
  - left. by exists s1, e.
  - right. by exists s1.
Qed.

End Operations.

(** What a rename without error leaves behind. *)
Lemma RenameObject_moves {S : Type} `{Service S}
    (client : Client S) (bucket old new : string) :
  CopyCopies S ->
  DeleteRemoves S ->
  Strings.contains "/" bucket = false ->
  old <> new ->
  (RenameObject client bucket old new).2 = None ->
  exists data,
    lookupObject (service client) bucket old = Some data
    /\ lookupObject (service (RenameObject client bucket old new).1) bucket new
       = Some data
    /\ lookupObject (service (RenameObject client bucket old new).1) bucket old
       = None
    /\ forall b k, (b, k) <> (bucket, old) -> (b, k) <> (bucket, new) ->
         lookupObject (service (RenameObject client bucket old new).1) b k
         = lookupObject (service client) b k.
Proof.
  intros Hcopies Hremoves Hbucket Hne Hnil.
  destruct (RenameObject_cases client bucket old new)
    as [(s1 & e & _ & Hrun)|[(s1 & s2 & e & _ & _ & Hrun)|(s1 & s2 & Hcopy & Hdel & Hrun)]];
    rewrite Hrun in Hnil |- *; try discriminate.
  cbn [fst snd service].
  destruct (Hcopies _ _ _ Hcopy) as (data & Hsrc & Hdst & Hothers).
  cbn [copy_CopySource copy_Bucket copy_Key] in Hsrc, Hdst, Hothers.
  rewrite (RenameFacts.parseCopySource_rename bucket old Hbucket) in Hsrc.
  cbn [fst snd] in Hsrc.
  destruct (Hremoves _ _ _ Hdel) as [Hgone Hkept].
  cbn [delete_Bucket delete_Key] in Hgone, Hkept.
  exists data. split; [done|]. split; [|split; [done|]].
  - rewrite Hkept; [done | congruence].
  - intros b k Hold Hnew. rewrite Hkept; [|done]. by apply Hothers.
Qed.

(** X1.  When [RenameObject] returns no error for two different keys, the
    new key holds the content the old key held before, the old key holds
    nothing, and every other key of every bucket is as it was: also an
    object that was under the new key before is replaced without notice.
    (The store copies on a successful copy and removes on a successful
    delete; the bucket name has no ['/'].) *)
Theorem rename_success_moves_the_object {S : Type} `{Service S}
    (client : Client S) (bucket old new : string) :
  CopyCopies S ->
  DeleteRemoves S ->
  Strings.contains "/" bucket = false ->
  old <> new ->
  (RenameObject client bucket old new).2 = None ->
  exists data,
    lookupObject (service client) bucket old = Some data
    /\ lookupObject (service (RenameObject client bucket old new).1) bucket new
       = Some data
    /\ lookupObject (service (RenameObject client bucket old new).1) bucket old
       = None
    /\ forall b k, (b, k) <> (bucket, old) -> (b, k) <> (bucket, new) ->
         lookupObject (service (RenameObject client bucket old new).1) b k
         = lookupObject (service client) b k.
Proof. apply RenameObject_moves. Qed.

(** [docs/a.txt] becomes [docs/b.txt], which existed: it now holds
    [hello], and [docs/a.txt] is gone. *)
Lemma rename_success_moves_the_object_witness :
  lookupObject (service (RenameObject (newClient healthy)
                           "media" "docs/a.txt" "docs/b.txt").1)
    "media" "docs/b.txt" = Some "hello"
  /\ lookupObject (service (RenameObject (newClient healthy)
                              "media" "docs/a.txt" "docs/b.txt").1)
       "media" "docs/a.txt" = None.
Proof.
  destruct (rename_success_moves_the_object (newClient healthy)
              "media" "docs/a.txt" "docs/b.txt"
              MemStoreFacts.mem_CopyCopies MemStoreFacts.mem_DeleteRemoves)
    as (data & Hbefore & Hnew & Hold & _).
  - vm_compute. reflexivity.
  - discriminate.
  - vm_compute. reflexivity.
  - assert (data = "hello") as ->.
    { vm_compute in Hbefore. by injection Hbefore. }
    by split.
Defined.

(** X2.  [RenameObject] returns no error exactly when the store answers
    both the copy and the delete without error.  Every error it returns is
    the wrapped error of the copy or the wrapped error of the delete after
    a successful copy; it sends the copy, at most one request more, and
    nothing after a request that failed. *)
Theorem rename_error_tells_the_stage {S : Type} `{Service S}
    (client : Client S) (bucket old new : string) :
  ((RenameObject client bucket old new).2 = None
   <-> exists s1 s2,
         copyObject (copyInputOf bucket old new) (service client) = (s1, None)
         /\ deleteObject (mkDeleteObjectInput bucket old) s1 = (s2, None))
  /\ (forall msg, (RenameObject client bucket old new).2 = Some msg ->
        (exists e, msg = copyFailed old new bucket e
                   /\ calls (RenameObject client bucket old new).1
                      = calls client ++ [CopyCall (copyInputOf bucket old new)])
        \/ (exists e, msg = copiedNotDeleted old bucket (deleteFailed old bucket e)
                      /\ calls (RenameObject client bucket old new).1
                         = calls client ++ [CopyCall (copyInputOf bucket old new);
                                            DeleteCall (mkDeleteObjectInput bucket old)])).
Proof.
  destruct (RenameObject_cases client bucket old new)
    as [(s1 & e & Hcopy & Hrun)|[(s1 & s2 & e & Hcopy & Hdel & Hrun)
                                |(s1 & s2 & Hcopy & Hdel & Hrun)]];
    rewrite Hrun; cbn [fst snd calls]; split.
  - split; [discriminate|]. intros (s1' & s2' & Hcopy' & _). congruence.
  - intros msg [= <-]. left. by exists e.
  - split; [discriminate|]. intros (s1' & s2' & Hcopy' & Hdel').
    rewrite Hcopy in Hcopy'. injection Hcopy' as <-. congruence.
  - intros msg [= <-]. right. by exists e.
  - split; [|done]. intros _. by exists s1, s2.
  - intros msg [=].
Qed.



Example delete_of_a_missing_key :
  (R2.DeleteObject (newClient healthy) "media" "nope").2 = None.
Proof. vm_compute. reflexivity. Qed.

End StoreOpsFacts.

Module ListMoreFacts.
Import S3 StoreLaws Listing R2 Main Commands MemStore StoreFixtures.

Local Open Scope list_scope.

Section Requests.
Context {S : Type} `{Service S}.

(** The requests of the loop: one per turn, for the bucket of the
    paginator, with the token the paginator holds. *)
Lemma listPages_requests (fuel : nat) :
  forall (p : Paginator) (client : Client S) (acc : list Object)
         (client' : Client S) (objects : list Object) (err : option string),
    listPages fuel p client acc = Some (client', (objects, err)) ->
    exists tokens,
      calls client'
      = calls client
        ++ List.map (fun t => ListCall (mkListObjectsV2Input (list_Bucket (params p)) t))
             tokens
      /\ (HasMorePages p = true ->
          exists later, tokens = nextToken p :: later
                        /\ Forall (fun t => nonEmptyToken t = true) later)
      /\ (HasMorePages p = false -> tokens = [])
      /\ (err <> None -> objects = []).
Proof.
  induction fuel as [|fuel IH]; intros p client acc client' objects err Hrun;
    [discriminate|].
  cbn [listPages] in Hrun.
  destruct (HasMorePages p) eqn:Hmore.
  - unfold NextPage, ListObjectsV2 in Hrun. rewrite Hmore in Hrun. cbn [negb] in Hrun.
    destruct (listObjectsV2 _ (service client)) as [s1 [out|e]] eqn:Hanswer.
    + apply IH in Hrun as (tokens & Hcalls & Hfirst & Hnone & Herr).
      cbn [calls params nextToken] in Hcalls, Hfirst, Hnone.
      exists (nextToken p :: tokens). split; [|split; [|split]]; try done.
      * rewrite Hcalls. cbn [List.map]. by rewrite <- app_assoc.
      * intros _. exists tokens. split; [done|].
        destruct (HasMorePages (mkPaginator (params p) false (tokenAfter out)))
          eqn:Hnext.
        -- destruct (Hfirst eq_refl) as (later & -> & Hlater).
           constructor; [|done].
           unfold HasMorePages in Hnext. by cbn [firstPage nextToken orb] in Hnext.
        -- by rewrite (Hnone eq_refl).
    + injection Hrun as <- <- <-.
      exists [nextToken p]. split; [|split; [|split]]; try done.
      intros _. by exists [].
  - injection Hrun as <- <- <-. exists []. split; [|split; [|split]]; try done.
    cbn [List.map]. by rewrite app_nil_r.
Qed.

End Requests.

(** X4.  In every run of [ListObjects] that returns, whatever the store
    answered, the requests sent are of one kind only, the listing of the
    given bucket: the first without a continuation token, each later one
    with a non-empty token.  And no run returns objects together with an
    error. *)
Theorem list_only_lists {S : Type} `{Service S}
    (fuel : nat) (client client' : Client S) (bucket : string)
    (objects : list Object) (err : option string) :
  ListObjects fuel client bucket = Some (client', (objects, err)) ->
  (exists later,
     calls client'
     = calls client
       ++ List.map (fun t => ListCall (mkListObjectsV2Input bucket t)) (None :: later)
     /\ Forall (fun t => nonEmptyToken t = true) later)
  /\ (err <> None -> objects = []).
Proof.
  unfold ListObjects. intros Hrun.
  apply listPages_requests in Hrun as (tokens & Hcalls & Hfirst & _ & Herr).
  split; [|done].
  destruct (Hfirst eq_refl) as (later & -> & Hlater).
  by exists later.
Qed.

(** Three objects in pages of two: one request without token, one with
    the token [docs/b.txt]. *)
Lemma list_only_lists_witness :
  exists client' later,
    ListObjects 3 (newClient healthy) "media"
    = Some (client', ([objA; objB; objC], None))
    /\ calls client'
       = List.map (fun t => ListCall (mkListObjectsV2Input "media" t)) (None :: later)
    /\ Forall (fun t => nonEmptyToken t = true) later.
Proof.
  destruct (ListObjects 3 (newClient healthy) "media")
    as [[client' [objects err]]|] eqn:Hrun; [|vm_compute in Hrun; discriminate].
  destruct (list_only_lists 3 (newClient healthy) client' "media" objects err Hrun)
    as [(later & Hcalls & Hlater) _].
  exists client', later. split; [|split; [exact Hcalls | exact Hlater]].
  vm_compute in Hrun. injection Hrun as <- <- <-. reflexivity.
Defined.


Example list_command_output :
  snd <$> handleListCommand 3 (newClient healthy)
            (Config.mkR2Config "a" "k" "s" "media") (mkListFlags None)
  = Some (mkOutcome ["docs/a.txt | 5" +:+ Fmt.LF; "docs/b.txt | 2" +:+ Fmt.LF;
                     "img/c.png | 6" +:+ Fmt.LF] None)
  /\ snd <$> handleListCommand 3 (newClient emptyBucket)
               (Config.mkR2Config "a" "k" "s" "") (mkListFlags (Some "media"))
     = Some (mkOutcome ["No objects found in the bucket." +:+ Fmt.LF] None)
  /\ objectLine (mkObject "k" None) = "k | N/A" +:+ Fmt.LF.
Proof. vm_compute. done. Qed.


End ListMoreFacts.

(* ===================================================================== *)
(** * Properties of the delete and rename commands *)
(* ===================================================================== *)

Module CommandFacts.
Import S3 StoreLaws R2 Main Commands MemStore StoreFixtures.

Local Open Scope list_scope.

(** X6.  The delete command deletes the one key or nothing.  When it
    ends without error, bucket and key were given, the key holds nothing,
    every other key is as it was, and the last line printed reports the
    success.  When it ends with an error, every key is as it was; and
    when the bucket or the key is missing it has sent no request. *)
Theorem delete_command_all_or_nothing {S : Type} `{Service S}
    (client : Client S) (cfg : Config.R2Config) (flags : DeleteFlags) :
  DeleteRemoves S ->
  FailedDeleteKeepsStore S ->
  let bucket := default (Config.DefaultBucket cfg) (deletecmd_bucket flags) in
  let key := default "" (deletecmd_key flags) in
  let r := handleDeleteCommand client cfg flags in
  (exitError r.2 = None ->
   bucket <> "" /\ key <> ""
   /\ lookupObject (service r.1) bucket key = None
   /\ (forall b k, (b, k) <> (bucket, key) ->
         lookupObject (service r.1) b k = lookupObject (service client) b k)
   /\ last (stdout r.2)
      = Some (Fmt.Println ("Successfully deleted '" +:+ key +:+ "' from '"
                           +:+ bucket +:+ "'.")))
  /\ (exitError r.2 <> None ->
      forall b k, lookupObject (service r.1) b k = lookupObject (service client) b k)
  /\ (bucket = "" \/ key = "" -> r.1 = client /\ exitError r.2 <> None).
Proof.
  intros Hremoves Hkeeps bucket key r. subst r.
  unfold handleDeleteCommand. fold bucket key.
  destruct (String.eqb_spec bucket "") as [Hb|Hb];
    [cbn [fst snd exitError]; repeat split; try done; tauto|].
  destruct (String.eqb_spec key "") as [Hk|Hk];
    [cbn [fst snd exitError]; repeat split; try done; tauto|].
  destruct (StoreOpsFacts.DeleteObject_cases client bucket key)
    as [(s1 & e & Hdel & Hrun)|(s1 & Hdel & Hrun)];
    rewrite Hrun; cbn [fst snd exitError stdout service]; split; [|split| |split].
  - discriminate.
  - intros _ b k. by apply (Hkeeps _ _ _ _ Hdel).
  - tauto.
  - intros _. destruct (Hremoves _ _ _ Hdel) as [Hgone Hkept].
    by repeat split.
  - done.
  - tauto.
Qed.

(** The command deletes [docs/a.txt] of the default bucket. *)
Lemma delete_command_all_or_nothing_witness :
  lookupObject
    (service (handleDeleteCommand (newClient healthy)
                (Config.mkR2Config "a" "k" "s" "media")
                (mkDeleteFlags None (Some "docs/a.txt"))).1)
    "media" "docs/a.txt" = None
  /\ (handleDeleteCommand (newClient healthy) (Config.mkR2Config "a" "k" "s" "media")
        (mkDeleteFlags None None)).1 = newClient healthy.
Proof.
  split.
  - apply (proj1 (delete_command_all_or_nothing (newClient healthy)
                    (Config.mkR2Config "a" "k" "s" "media")
                    (mkDeleteFlags None (Some "docs/a.txt"))
                    MemStoreFacts.mem_DeleteRemoves
                    MemStoreFacts.mem_FailedDeleteKeepsStore)).
    vm_compute. reflexivity.
  - apply (proj2 (proj2 (delete_command_all_or_nothing (newClient healthy)
                           (Config.mkR2Config "a" "k" "s" "media")
                           (mkDeleteFlags None None)
                           MemStoreFacts.mem_DeleteRemoves
                           MemStoreFacts.mem_FailedDeleteKeepsStore))).
    right. reflexivity.
Defined.

(** X7.  The rename command tests bucket, old key and new key, in this
    order, and sends no request when one is missing.  When it ends
    without error for two different keys, the new key holds what the old
    key held, the old key holds nothing and every other key is as it
    was. *)
Theorem rename_command_moves_or_refuses {S : Type} `{Service S}
    (client : Client S) (cfg : Config.R2Config) (flags : RenameFlags) :
  CopyCopies S ->
  DeleteRemoves S ->
  let bucket := default (Config.DefaultBucket cfg) (renamecmd_bucket flags) in
  let old := default "" (renamecmd_old flags) in
  let new := default "" (renamecmd_new flags) in
  let r := handleRenameCommand client cfg flags in
  (bucket = "" \/ old = "" \/ new = "" ->
   r = (client,
        mkOutcome []
          (Some (if String.eqb bucket "" then noBucket
                 else if String.eqb old "" then noOldKey else noNewKey))))
  /\ (exitError r.2 = None ->
      Strings.contains "/" bucket = false ->
      old <> new ->
      exists data,
        lookupObject (service client) bucket old = Some data
        /\ lookupObject (service r.1) bucket new = Some data
        /\ lookupObject (service r.1) bucket old = None
        /\ forall b k, (b, k) <> (bucket, old) -> (b, k) <> (bucket, new) ->
             lookupObject (service r.1) b k = lookupObject (service client) b k).
Proof.
  intros Hcopies Hremoves bucket old new r. subst r.
  unfold handleRenameCommand. fold bucket old new.
  destruct (String.eqb_spec bucket "") as [Hb|Hb]; [by split|].
  destruct (String.eqb_spec old "") as [Ho|Ho]; [by split|].
  destruct (String.eqb_spec new "") as [Hn|Hn]; [by split|].
  split; [tauto|].
  pose proof (StoreOpsFacts.RenameObject_moves client bucket old new Hcopies Hremoves)
    as Hmoves.
  destruct (RenameObject client bucket old new) as [client' [e|]];
    cbn [fst snd exitError] in *; [discriminate|].
  intros _ Hslash Hne. by apply Hmoves.
Qed.

Lemma rename_command_moves_or_refuses_witness :
  handleRenameCommand (newClient healthy) (Config.mkR2Config "a" "k" "s" "media")
    (mkRenameFlags None None (Some "docs/z.txt"))
  = (newClient healthy, mkOutcome [] (Some noOldKey))
  /\ lookupObject
       (service (handleRenameCommand (newClient healthy)
                   (Config.mkR2Config "a" "k" "s" "media")
                   (mkRenameFlags None (Some "docs/a.txt") (Some "docs/z.txt"))).1)
       "media" "docs/z.txt" = Some "hello".
Proof.
  split.
  - apply (proj1 (rename_command_moves_or_refuses (newClient healthy)
                    (Config.mkR2Config "a" "k" "s" "media")
                    (mkRenameFlags None None (Some "docs/z.txt"))
                    MemStoreFacts.mem_CopyCopies MemStoreFacts.mem_DeleteRemoves)).
    right; left. reflexivity.
  - destruct (proj2 (rename_command_moves_or_refuses (newClient healthy)
                       (Config.mkR2Config "a" "k" "s" "media")
                       (mkRenameFlags None (Some "docs/a.txt") (Some "docs/z.txt"))
                       MemStoreFacts.mem_CopyCopies MemStoreFacts.mem_DeleteRemoves))
      as (data & Hbefore & Hnew & _).
    + vm_compute. reflexivity.
    + vm_compute. reflexivity.
    + discriminate.
    + assert (data = "hello") as ->.
      { vm_compute in Hbefore. by injection Hbefore. }
      exact Hnew.
Defined.

End CommandFacts.

(* ===================================================================== *)
(** * Further properties of the configuration loader *)
(* ===================================================================== *)

Module ConfigMoreFacts.
Import Config ConfigFixtures Paths.

#[local] Arguments Ascii.eqb : simpl never.
Local Open Scope list_scope.

Lemma validate_Ok_fields (path : string) (cfg c : R2Config) :
  validate path cfg = Ok c ->
  c = cfg /\ AccountID c <> "" /\ AccessKeyID c <> ""
  /\ SecretAccessKey c <> "" /\ DefaultBucket c <> "".
Proof.
  unfold validate.
  destruct (String.eqb_spec (AccountID cfg) ""); [discriminate|].
  destruct (String.eqb_spec (AccessKeyID cfg) ""); [discriminate|].
  destruct (String.eqb_spec (SecretAccessKey cfg) ""); [discriminate|].
  destruct (String.eqb_spec (DefaultBucket cfg) ""); [discriminate|].
  by intros [= <-].
Qed.

(** X8.  A configuration that [LoadConfig] returns has all four fields
    non-empty, whatever the file, the decoder and the environment. *)
Theorem loaded_config_is_complete
    (Unmarshal : string -> R2Config -> result R2Config)
    (fs : string -> FileState) (env : gmap string string) (c : R2Config) :
  LoadConfig Unmarshal fs env = Ok c ->
  AccountID c <> "" /\ AccessKeyID c <> ""
  /\ SecretAccessKey c <> "" /\ DefaultBucket c <> "".
Proof.
  unfold LoadConfig.
  destruct (loadFile Unmarshal fs _ emptyConfig) as [fcfg|e]; [|discriminate].
  intros Hvalid. by apply validate_Ok_fields in Hvalid as [_ Hfields].
Qed.

Lemma loaded_config_is_complete_witness :
  AccountID (mkR2Config "env-acct" "file-key" "file-secret" "file-bucket") <> ""
  /\ AccessKeyID (mkR2Config "env-acct" "file-key" "file-secret" "file-bucket") <> ""
  /\ SecretAccessKey (mkR2Config "env-acct" "file-key" "file-secret" "file-bucket") <> ""
  /\ DefaultBucket (mkR2Config "env-acct" "file-key" "file-secret" "file-bucket") <> "".
Proof.
  apply (loaded_config_is_complete lineDecoder (fsWith fullFile) envAccountOnly).
  vm_compute. reflexivity.
Defined.

(** X9.  When the four environment variables are set and non-empty, and
    the config file is missing or decodes, [LoadConfig] returns the four
    values of the environment: nothing of the file is used. *)
Theorem environment_alone_suffices
    (Unmarshal : string -> R2Config -> result R2Config)
    (fs : string -> FileState) (env : gmap string string) (fcfg : R2Config) :
  (forall f, Getenv env (envVar f) <> "") ->
  loadFile Unmarshal fs (expandPath env configFilePath) emptyConfig = Ok fcfg ->
  LoadConfig Unmarshal fs env
  = Ok (mkR2Config (Getenv env "CFR2_ACCOUNT_ID") (Getenv env "CFR2_ACCESS_KEY_ID")
          (Getenv env "CFR2_SECRET_ACCESS_KEY") (Getenv env "CFR2_DEFAULT_BUCKET")).
Proof.
  intros Hset Hfile. unfold LoadConfig. rewrite Hfile.
  pose proof (Hset FAccountID) as H1. pose proof (Hset FAccessKeyID) as H2.
  pose proof (Hset FSecretAccessKey) as H3. pose proof (Hset FDefaultBucket) as H4.
  cbn [envVar] in H1, H2, H3, H4.
  apply String.eqb_neq in H1 as H1', H2 as H2', H3 as H3', H4 as H4'.
  unfold overrideWithEnv. rewrite H1', H2', H3', H4'. cbn [negb].
  cbn [AccountID AccessKeyID SecretAccessKey DefaultBucket].
  unfold validate. cbn [AccountID AccessKeyID SecretAccessKey DefaultBucket].
  by rewrite H1', H2', H3', H4'.
Qed.

(** The file gives four other values: the result is the environment's. *)
Lemma environment_alone_suffices_witness :
  LoadConfig lineDecoder (fsWith fullFile) envAll
  = Ok (mkR2Config "env-acct" "env-key" "env-secret" "env-bucket").
Proof.
  refine (environment_alone_suffices lineDecoder (fsWith fullFile) envAll
            (mkR2Config "file-acct" "file-key" "file-secret" "file-bucket") _ _).
  - intros f. destruct f; vm_compute; discriminate.
  - vm_compute. reflexivity.
Defined.

(** X10.  [expandPath] puts the home directory in the place of the
    tilde: with [$HOME] an absolute path in clean form, [~/a/b] becomes
    [$HOME/a/b], and the config file is [$HOME/.local/cfg/cfr2.toml]. *)
Theorem expandPath_is_home_relative (env : gmap string string)
    (es qs : list string) :
  Getenv env "HOME" = absolutePath es ->
  es <> [] -> Forall plainElement es ->
  qs <> [] -> Forall plainElement qs ->
  expandPath env ("~/" +:+ Strings.Join qs "/")
  = Getenv env "HOME" +:+ "/" +:+ Strings.Join qs "/"
  /\ expandPath env configFilePath = Getenv env "HOME" +:+ "/.local/cfg/cfr2.toml".
Proof.
  intros Hhome Hes Hplain Hqs Hqplain.
  assert (forall ps, ps <> [] -> Forall plainElement ps ->
            expandPath env ("~/" +:+ Strings.Join ps "/")
            = Getenv env "HOME" +:+ "/" +:+ Strings.Join ps "/") as Hgeneral.
  { clear qs Hqs Hqplain. intros qs Hqs Hqplain.
    change ("~/" +:+ Strings.Join qs "/") with (String "~" ("/" +:+ Strings.Join qs "/")).
    cbn [expandPath]. change (Ascii.eqb "~" "~") with true. cbv iota.
    unfold UserHomeDir. rewrite Hhome. unfold absolutePath.
    change (String.eqb ("/" +:+ Strings.Join es "/") "") with false. cbv iota.
    cbn [Filepath.Join]. change (String.eqb ("/" +:+ Strings.Join es "/") "") with false.
    cbv iota.
    change (Strings.Join ["/" +:+ Strings.Join es "/"; "/" +:+ Strings.Join qs "/"] "/")
      with (String "/" (Strings.Join es "/" +:+ String "/" (String "/" (Strings.Join qs "/")))).
    unfold Filepath.Clean, Filepath.elements.
    change (Filepath.isRooted (String "/" _)) with true. cbv iota.
    change (Filepath.splitFrom (String "/" ?x) "")
      with ("" :: Filepath.splitFrom x "").
    cbn [Filepath.splitFrom]. change (Ascii.eqb "/" "/") with true. cbv iota.
    change (String.rev "") with "".
    rewrite (MainFacts.elements_Join es _ Hplain).
    destruct es as [|e es']; [done|].
    change (Filepath.splitFrom (String "/" (Strings.Join qs "/")) "")
      with ("" :: Filepath.splitFrom (Strings.Join qs "/") "").
    rewrite (MainFacts.elements_Join_last qs Hqplain Hqs).
    cbn [Filepath.cleanElems]. change (String.eqb "" "" || String.eqb "" ".") with true.
    cbv iota.
    rewrite (MainFacts.cleanElems_plain true (e :: es') ("" :: qs) 0 [] Hplain).
    cbn [Filepath.cleanElems]. change (String.eqb "" "" || String.eqb "" ".") with true.
    cbv iota.
    replace qs with (qs ++ []) at 1 by apply app_nil_r.
    rewrite (MainFacts.cleanElems_plain true qs [] 0 _ Hqplain).
    cbn [Filepath.cleanElems repeat app].
    rewrite rev_app_distr, rev_involutive, app_nil_r, rev_involutive.
    rewrite MainFacts.Join_app; [|done|done].
    change ("/" +:+ Strings.Join (e :: es') "/" +:+ "/" +:+ Strings.Join qs "/")
      with (String "/" (Strings.Join (e :: es') "/" +:+ "/" +:+ Strings.Join qs "/")).
    change (("/" +:+ Strings.Join (e :: es') "/") +:+ "/" +:+ Strings.Join qs "/")
      with (String "/" (Strings.Join (e :: es') "/" +:+ "/" +:+ Strings.Join qs "/")).
    reflexivity. }
  split; [by apply Hgeneral|].
  apply (Hgeneral [".local"; "cfg"; "cfr2.toml"]); [done|].
  repeat constructor; done.
Qed.

Example expandPath_unchanged :
  expandPath ∅ "~/x" = "~/x" /\ expandPath envAll "etc/x" = "etc/x".
Proof. split; vm_compute; reflexivity. Qed.

(** [$HOME] is [/home/u]. *)
Lemma expandPath_is_home_relative_witness :
  expandPath envAll ("~/" +:+ Strings.Join ["a"; "b"] "/")
  = Getenv envAll "HOME" +:+ "/" +:+ Strings.Join ["a"; "b"] "/"
  /\ expandPath envAll configFilePath
     = Getenv envAll "HOME" +:+ "/.local/cfg/cfr2.toml".
Proof.
  apply (expandPath_is_home_relative envAll ["home"; "u"] ["a"; "b"]).
  - vm_compute. reflexivity.
  - discriminate.
  - repeat constructor; done.
  - discriminate.
  - repeat constructor; done.
Defined.

End ConfigMoreFacts.

(* ===================================================================== *)
(** * Further properties of the transfers *)
(* ===================================================================== *)

Module TransferFacts.
Import S3 R2 Main Transfer MemStore StoreFixtures.

#[local] Arguments Ascii.eqb : simpl never.
Local Open Scope list_scope.


Example destinations_collide :
  resolveOutputPath (fun _ => false) "" "a/b" = "a_b"
  /\ resolveOutputPath (fun _ => false) "" "a_b" = "a_b"
  /\ resolveOutputPath (fun _ => false) "" "../../etc/passwd" = ".._.._etc_passwd".
Proof. repeat split. Qed.

(** The lines of a count that has reached the total. *)
Lemma renderProgress_full (total : Z) :
  (0 < total < 2 ^ 63)%Z ->
  renderProgress
    (mkProgressLine total total
       (fmul (fdiv (ofInt64 total) (ofInt64 total)) (ofInt64 100)))
  = Fmt.CR +:+ Fmt.formatInt total +:+ " / " +:+ Fmt.formatInt total +:+ " (100.00%)"
  /\ renderProgress
       (mkProgressLine total total
          (fmul (fdiv (ofInt64 total) (ofInt64 total)) (ofInt64 10)))
     = Fmt.CR +:+ Fmt.formatInt total +:+ " / " +:+ Fmt.formatInt total +:+ " (10.00%)".
Proof.
  intros Htotal. rewrite (ProgressFacts.quotient_of_total total Htotal).
  unfold renderProgress. cbn [shownTransferred shownTotal shownPercentage].
  replace (Fmt.formatFixed2 (fmul one (ofInt64 100))) with "100.00" by (by vm_compute).
  replace (Fmt.formatFixed2 (fmul one (ofInt64 10))) with "10.00" by (by vm_compute).
  split; reflexivity.
Qed.

(** X13.  The line of the call that completes a transfer: the download
    wrapper prints [total / total (100.00%)], the upload wrapper prints
    [total / total (10.00%)]. *)
Theorem completed_transfer_lines (inner : string -> Z * option string) (p : string)
    (total transferred n : Z) :
  inner p = (n, None) ->
  (transferred + n = total)%Z ->
  (0 < total < 2 ^ 63)%Z ->
  (renderProgress <$> (Write inner (mkProgressWriter total transferred) p).2)
  = Some (Fmt.CR +:+ Fmt.formatInt total +:+ " / " +:+ Fmt.formatInt total
          +:+ " (100.00%)")
  /\ (renderProgress <$> (Read (n, None) (mkProgressReader total transferred)).2)
     = Some (Fmt.CR +:+ Fmt.formatInt total +:+ " / " +:+ Fmt.formatInt total
             +:+ " (10.00%)").
Proof.
  intros Hinner Hdone Htotal.
  assert (add64 transferred n = total) as Hadd.
  { rewrite ProgressFacts.add64_in_range; [done|]. unfold in_int64. lia. }
  split.
  - rewrite (ProgressFacts.Write_prints inner _ p n Hinner).
    cbn [snd pw_total pw_transferred fmap option_fmap option_map]. rewrite Hadd.
    by rewrite (proj1 (renderProgress_full total Htotal)).
  - unfold Read. cbn [snd pr_total pr_transferred fmap option_fmap option_map].
    rewrite Hadd.
    by rewrite (proj2 (renderProgress_full total Htotal)).
Qed.

Lemma completed_transfer_lines_witness :
  (renderProgress <$> (Write writeAll (mkProgressWriter 5 0) "hello").2)
  = Some (Fmt.CR +:+ "5 / 5 (100.00%)")
  /\ (renderProgress <$> (Read (5%Z, None) (mkProgressReader 5 0)).2)
     = Some (Fmt.CR +:+ "5 / 5 (10.00%)").
Proof.
  apply (completed_transfer_lines writeAll "hello" 5 0 5).
  - reflexivity.
  - reflexivity.
  - lia.
Defined.

Lemma bodyLength_nonneg (chunks : list string) : (0 <= bodyLength chunks)%Z.
Proof. induction chunks as [|p chunks IH]; cbn [bodyLength fold_right]; [done|].
  fold (bodyLength chunks). lia. Qed.

Lemma bodyLength_cons (p : string) (chunks : list string) :
  bodyLength (p :: chunks) = (Z.of_nat (String.length p) + bodyLength chunks)%Z.
Proof. reflexivity. Qed.

(** The copy into a file that takes every write whole. *)
Lemma ioCopy_writeAll (chunks : list string) :
  forall (total t0 : Z) (bodyError : option string) (out : list string),
    (0 <= t0)%Z -> (t0 + bodyLength chunks < 2 ^ 63)%Z ->
    ioCopy writeAll (mkProgressWriter total t0) chunks bodyError out
    = (mkProgressWriter total (t0 + bodyLength chunks), bodyError,
       out ++ List.map (fun t => renderProgress (downloadLine total t))
                (runningTotals t0 chunks)).
Proof.
  induction chunks as [|p chunks IH]; intros total t0 bodyError out Ht0 Hrange.
  - cbn [ioCopy bodyLength fold_right runningTotals List.map].
    by rewrite Z.add_0_r, app_nil_r.
  - rewrite bodyLength_cons in Hrange |- *.
    pose proof (bodyLength_nonneg chunks) as Hrest.
    cbn [ioCopy runningTotals].
    destruct (0 <? Z.of_nat (String.length p))%Z eqn:Hlen.
    + apply Z.ltb_lt in Hlen.
      rewrite (ProgressFacts.Write_prints writeAll _ p (Z.of_nat (String.length p)) eq_refl).
      cbn [pw_total pw_transferred printed].
      rewrite ProgressFacts.add64_in_range by (unfold in_int64; lia).
      replace (Z.of_nat (String.length p) <? 0)%Z with false
        by (symmetry; apply Z.ltb_ge; lia).
      rewrite Z.ltb_irrefl, Z.eqb_refl. cbn [orb negb].
      rewrite IH by lia. cbn [List.map]. rewrite <- app_assoc.
      by rewrite Z.add_assoc.
    + apply Z.ltb_ge in Hlen. rewrite IH by lia.
      by replace (Z.of_nat (String.length p)) with 0%Z by lia.
Qed.

Lemma runningTotals_bounds (chunks : list string) :
  forall t0,
    Forall (fun t => (t0 < t <= t0 + bodyLength chunks)%Z) (runningTotals t0 chunks)
    /\ ((0 < bodyLength chunks)%Z ->
        last (runningTotals t0 chunks) = Some (t0 + bodyLength chunks)%Z).
Proof.
  induction chunks as [|p chunks IH]; intros t0.
  - split; [constructor|]. cbn. lia.
  - rewrite bodyLength_cons. pose proof (bodyLength_nonneg chunks) as Hrest.
    cbn [runningTotals].
    destruct (0 <? Z.of_nat (String.length p))%Z eqn:Hlen.
    + apply Z.ltb_lt in Hlen.
      destruct (IH (t0 + Z.of_nat (String.length p))%Z) as [Hall Hlast]. split.
      * constructor; [lia|]. eapply Forall_impl; [exact Hall|]. cbn. lia.
      * intros _. destruct (Z.eq_dec (bodyLength chunks) 0%Z) as [Hzero|Hpos].
        -- rewrite Hzero in Hall |- *.
           destruct (runningTotals _ chunks) as [|t ts]; [cbn; f_equal; lia|].
           apply Forall_inv in Hall. lia.
        -- rewrite last_cons, Hlast by lia. f_equal. lia.
    + apply Z.ltb_ge in Hlen. destruct (IH t0) as [Hall Hlast]. split.
      * eapply Forall_impl; [exact Hall|]. cbn. lia.
      * intros Hpos. rewrite Hlast by lia. f_equal. lia.
Qed.

(** X14.  A download into a file that takes every write prints one
    progress line per chunk of the body that is not empty, the line of
    [Write] at the count reached; the counts grow from line to line and
    never exceed the length of the body, the last one is the length of
    the body, and all lines show the same total.  The copy ends with the
    error of the body, if any, and with the count of the whole body.
    (The count stays below 2^63.) *)
Theorem download_progress_trace (chunks : list string) (total t0 : Z)
    (bodyError : option string) (out : list string) :
  (0 <= t0)%Z ->
  (t0 + bodyLength chunks < 2 ^ 63)%Z ->
  ioCopy writeAll (mkProgressWriter total t0) chunks bodyError out
  = (mkProgressWriter total (t0 + bodyLength chunks), bodyError,
     out ++ List.map (fun t => renderProgress (downloadLine total t))
              (runningTotals t0 chunks))
  /\ Forall (fun t => (t0 < t <= t0 + bodyLength chunks)%Z) (runningTotals t0 chunks)
  /\ StronglySorted Z.lt (runningTotals t0 chunks)
  /\ ((0 < bodyLength chunks)%Z ->
      last (runningTotals t0 chunks) = Some (t0 + bodyLength chunks)%Z).
Proof.
  intros Ht0 Hrange. split; [by apply ioCopy_writeAll|].
  destruct (runningTotals_bounds chunks t0) as [Hall Hlast].
  split; [done|]. split; [|done].
  clear Hall Hlast Ht0 Hrange. revert t0.
  induction chunks as [|p chunks IH]; intros t0; [constructor|].
  cbn [runningTotals].
  destruct (0 <? Z.of_nat (String.length p))%Z eqn:Hlen; [|apply IH].
  apply Z.ltb_lt in Hlen. constructor; [apply IH|].
  destruct (runningTotals_bounds chunks (t0 + Z.of_nat (String.length p))%Z)
    as [Hall _].
  eapply Forall_impl; [exact Hall|]. cbn. lia.
Qed.

Lemma download_progress_trace_witness :
  ioCopy writeAll (mkProgressWriter 6 0) ["abc"; ""; "def"] None []
  = (mkProgressWriter 6 6, None,
     [Fmt.CR +:+ "3 / 6 (50.00%)"; Fmt.CR +:+ "6 / 6 (100.00%)"]).
Proof.
  refine (eq_trans (proj1 (download_progress_trace ["abc"; ""; "def"] 6 0 None [] _ _)) _).
  - lia.
  - vm_compute. reflexivity.
  - vm_compute. reflexivity.
Defined.

(** X15.  When the response gives the content length, the body has this
    many bytes (at least one) and ends without error, and the local file
    is created and takes every write, [DownloadObject] returns no error
    after one request, and the last two things it prints are the line
    [n / n (100.00%)] and the line feed. *)
Theorem download_ends_at_100_percent {S : Type} `{Service S}
    (create : string -> option string) (client : Client S)
    (bucket key path : string) (s' : S) (resp : GetObjectOutput) (n : Z) :
  getObject (mkGetObjectInput bucket key) (service client) = (s', Ok resp) ->
  create path = None ->
  ContentLength resp = Some n ->
  bodyLength (Body resp) = n ->
  (0 < n < 2 ^ 63)%Z ->
  BodyError resp = None ->
  exists earlier,
    DownloadObject create writeAll client bucket key path
    = (mkClient s' (calls client ++ [GetCall (mkGetObjectInput bucket key)]), None,
       earlier ++ [Fmt.CR +:+ Fmt.formatInt n +:+ " / " +:+ Fmt.formatInt n
                   +:+ " (100.00%)"; Fmt.LF]).
Proof.
  intros Hget Hcreate Hlength Hbody Hn Hend.
  unfold DownloadObject, GetObject. rewrite Hget, Hcreate, Hlength, Hend.
  rewrite ioCopy_writeAll by lia. cbn [app].
  destruct (runningTotals_bounds (Body resp) 0) as [_ Hlast].
  rewrite Hbody, Z.add_0_l in Hlast.
  apply last_Some in Hlast as [totals Htotals]; [|lia].
  rewrite Htotals, map_app. cbn [List.map].
  exists (List.map (fun t => renderProgress (downloadLine n t)) totals).
  unfold downloadLine at 2. rewrite (proj1 (renderProgress_full n Hn)).
  by rewrite <- app_assoc.
Qed.

(** The 5 bytes of [docs/a.txt]. *)
Lemma download_ends_at_100_percent_witness :
  exists earlier,
    DownloadObject (fun _ => None) writeAll (newClient healthy)
      "media" "docs/a.txt" "a.txt"
    = (mkClient healthy [GetCall (mkGetObjectInput "media" "docs/a.txt")], None,
       earlier ++ [Fmt.CR +:+ "5 / 5 (100.00%)"; Fmt.LF]).
Proof.
  apply (download_ends_at_100_percent (fun _ => None) (newClient healthy)
           "media" "docs/a.txt" "a.txt" healthy
           (mkGetObjectOutput (Some 5%Z) ["hello"] None) 5).
  - vm_compute. reflexivity.
  - reflexivity.
  - reflexivity.
  - reflexivity.
  - lia.
  - reflexivity.
Defined.

(** X17.  Whatever the store, the local file and the body do,
    [DownloadObject] sends one request to the store, the GetObject of the
    key, and leaves the store in the state this request left it in; and
    when the request fails or the file cannot be created it prints
    nothing. *)
Theorem download_sends_one_request {S : Type} `{Service S}
    (create : string -> option string) (fileWrite : string -> Z * option string)
    (client : Client S) (bucket key path : string) :
  calls (DownloadObject create fileWrite client bucket key path).1.1
  = calls client ++ [GetCall (mkGetObjectInput bucket key)]
  /\ service (DownloadObject create fileWrite client bucket key path).1.1
     = (getObject (mkGetObjectInput bucket key) (service client)).1
  /\ ((forall resp, (getObject (mkGetObjectInput bucket key) (service client)).2
                    <> Ok resp)
      \/ create path <> None ->
      (DownloadObject create fileWrite client bucket key path).2 = []
      /\ (DownloadObject create fileWrite client bucket key path).1.2 <> None).
Proof.
  unfold DownloadObject, GetObject.
  destruct (getObject (mkGetObjectInput bucket key) (service client))
    as [s' [resp|e]]; cbn [fst snd].
  - destruct (create path) as [e|] eqn:Hcreate; cbn [fst snd calls service].
    + repeat split; done.
    + destruct (ContentLength resp) as [n|];
        destruct (ioCopy fileWrite _ (Body resp) (BodyError resp) _)
          as [[pw [e|]] out]; cbn [fst snd calls service];
        (split; [done|]); (split; [done|]);
        intros [Hfail|Hfail]; solve [done | by destruct (Hfail resp)].
  - cbn [calls service]. repeat split; done.
Qed.

(** Hours that fit a [time.Duration]. *)
Lemma hours_do_not_wrap (h : Z) :
  (-2562047 <= h <= 2562047)%Z -> mul64 h Hour = (h * 3600000000000)%Z.
Proof.
  intros Hh. unfold mul64, wrap64, Hour. rewrite Z.mod_small; lia.
Qed.

(** Hours whose nanoseconds exceed a [time.Duration] by less than
    2^63. *)
Lemma hours_wrap_once (h : Z) :
  (2562048 <= h <= 5124095)%Z ->
  mul64 h Hour = (h * 3600000000000 - 2 ^ 64)%Z.
Proof.
  intros Hh. unfold mul64, wrap64, Hour.
  replace (h * 3600000000000 + 2 ^ 63)%Z
    with ((h * 3600000000000 - 2 ^ 64 + 2 ^ 63) + 1 * 2 ^ 64)%Z by lia.
  rewrite Z.mod_add by lia. rewrite Z.mod_small; lia.
Qed.

(** X16.  The presign command tests neither the sign nor the size of the
    expiry: it asks for the product of [h] and an hour of nanoseconds,
    computed in int64.  For [h] from -2562047 to 2562047 this is
    [h * 3600000000000], so that zero and negative hours reach the signing
    as they are; for [h] from 2562048 to 5124095 the product wraps around
    to [h * 3600000000000 - 2^64], a negative duration. *)
Theorem presign_expiry_is_not_checked {S : Type} `{Service S}
    (client : Client S) (cfg : Config.R2Config) (bucket key : string) (h : Z) :
  bucket <> "" -> key <> "" ->
  let announce :=
    Fmt.Println ("Generating presigned URL for '" +:+ key +:+ "' in bucket '"
                 +:+ bucket +:+ "' with " +:+ Fmt.formatInt h +:+ "-hour expiry...") in
  handlePresignCommand client cfg (mkPresignFlags (Some bucket) (Some key) (Some h))
  = match GeneratePresignedURLWithExpiry client bucket key (mul64 h Hour) with
    | Ok url => mkOutcome [announce; Fmt.Println ("Presigned URL: " +:+ url)] None
    | Err err =>
        mkOutcome [announce]
          (Some ("Failed to generate presigned URL for object '" +:+ key
                 +:+ "': " +:+ err))
    end
  /\ ((-2562047 <= h <= 2562047)%Z -> mul64 h Hour = (h * 3600000000000)%Z)
  /\ ((2562048 <= h <= 5124095)%Z ->
      mul64 h Hour = (h * 3600000000000 - 2 ^ 64)%Z /\ (mul64 h Hour < 0)%Z).
Proof.
  intros Hbucket Hkey announce. split; [|split].
  - apply String.eqb_neq in Hbucket, Hkey.
    unfold handlePresignCommand.
    cbn [from_option id presign_bucket presign_key presign_expiry].
    by rewrite Hbucket, Hkey.
  - apply hours_do_not_wrap.
  - intros Hh. rewrite (hours_wrap_once h Hh). lia.
Qed.

(** Minus one hour, and 2562048 hours. *)
Lemma presign_expiry_is_not_checked_witness :
  handlePresignCommand (newClient healthy) (Config.mkR2Config "a" "k" "s" "media")
    (mkPresignFlags (Some "media") (Some "docs/a.txt") (Some (-1)%Z))
  = mkOutcome
      [Fmt.Println "Generating presigned URL for 'docs/a.txt' in bucket 'media' with -1-hour expiry...";
       Fmt.Println "Presigned URL: https://r2.example/media/docs/a.txt?X-Amz-Expires=-3600"]
      None
  /\ mul64 2562048 Hour = (-9223371273709551616)%Z.
Proof.
  split.
  - refine (eq_trans (proj1 (presign_expiry_is_not_checked (newClient healthy)
                               (Config.mkR2Config "a" "k" "s" "media")
                               "media" "docs/a.txt" (-1) _ _)) _).
    + discriminate.
    + discriminate.
    + vm_compute. reflexivity.
  - refine (eq_trans (proj1 (proj2 (proj2 (presign_expiry_is_not_checked
                               (newClient healthy)
                               (Config.mkR2Config "a" "k" "s" "media")
                               "media" "docs/a.txt" 2562048 _ _)) _)) _).
    + discriminate.
    + discriminate.
    + lia.
    + reflexivity.
Defined.

End TransferFacts.
